(** * Dynamic monitoring of the server-monitor example, embedded in Rocq

    The development follows the TypeScript sources of the repository:
    - [system-info.ts]: [getCpuInfo], [getMemInfo], [getDynamicCpuUsage];
    - [dynamic-monitoring.ts]: the classes [DynamicMonitor],
      [TrendAnalyzer] and [AlertManager].

    JavaScript numbers are modelled by [number]: a finite value is the
    rational it denotes, and the three special values of IEEE 754 that
    the code can produce (the two infinities and NaN) are kept apart.
    The operations of [JsNumber] give the exact result; they stand for
    the operations of the code whose result is exact on its operands:
    sums and differences of counters, of sizes in bytes and of times in
    milliseconds (whole numbers below 2^53), products by 60 and 1000,
    products and quotients by powers of two.  Where the code divides
    two counters or computes with usages, the operations of [Double]
    are used: they round the exact result to the nearest double, the
    even one on a tie, and overflow to an infinity.  The sign of zero is
    not modelled, and [parseFloat] gives the value the numeral
    denotes. *)

From Stdlib Require Import QArith Qround Qabs Qpower ZArith List String Ascii Bool Lia Lqa.
From Stdlib Require Import DecimalString DecimalN DecimalPos.
Import ListNotations.

Local Open Scope string_scope.
Local Open Scope list_scope.
Local Open Scope Q_scope.

(** ** JavaScript numbers *)

Module JsNumber.

Inductive number : Type :=
| Fin (q : Q)
| PInf
| NInf
| NaN.

Definition of_Z (z : Z) : number := Fin (inject_Z z).
Definition of_nat (n : nat) : number := of_Z (Z.of_nat n).

Definition is_finite (x : number) : bool :=
  match x with Fin _ => true | _ => false end.

Definition is_nan (x : number) : bool :=
  match x with NaN => true | _ => false end.

(** Unary minus. *)
Definition neg (x : number) : number :=
  match x with
  | Fin q => Fin (- q)
  | PInf => NInf
  | NInf => PInf
  | NaN => NaN
  end.

(** [x + y] *)
Definition add (x y : number) : number :=
  match x, y with
  | NaN, _ | _, NaN => NaN
  | Fin a, Fin b => Fin (a + b)
  | PInf, NInf | NInf, PInf => NaN
  | PInf, _ | _, PInf => PInf
  | NInf, _ | _, NInf => NInf
  end.

(** [x - y] *)
Definition sub (x y : number) : number := add x (neg y).

(** The product of an infinity by a finite factor [a]: it keeps the
    sign ([pos]) for [a > 0], flips it for [a < 0], and is NaN at 0. *)
Definition inf_times (pos : bool) (a : Q) : number :=
  match a ?= 0 with
  | Gt => if pos then PInf else NInf
  | Lt => if pos then NInf else PInf
  | Eq => NaN
  end.

(** [x * y] *)
Definition mul (x y : number) : number :=
  match x, y with
  | NaN, _ | _, NaN => NaN
  | Fin a, Fin b => Fin (a * b)
  | Fin a, PInf | PInf, Fin a => inf_times true a
  | Fin a, NInf | NInf, Fin a => inf_times false a
  | PInf, PInf | NInf, NInf => PInf
  | PInf, NInf | NInf, PInf => NInf
  end.

(** [x / y]: a finite value divided by zero is an infinity of the sign
    of the numerator, and [0 / 0] is NaN. *)
Definition div (x y : number) : number :=
  match x, y with
  | NaN, _ | _, NaN => NaN
  | Fin a, Fin b =>
      match b ?= 0 with
      | Eq => match a ?= 0 with
              | Gt => PInf
              | Lt => NInf
              | Eq => NaN
              end
      | _ => Fin (a / b)
      end
  | Fin _, (PInf | NInf) => Fin 0
  | (PInf | NInf), (PInf | NInf) => NaN
  | PInf, Fin b => match b ?= 0 with Lt => NInf | _ => PInf end
  | NInf, Fin b => match b ?= 0 with Lt => PInf | _ => NInf end
  end.

(** [x < y]; every comparison with NaN is false. *)
Definition ltb (x y : number) : bool :=
  match x, y with
  | NaN, _ | _, NaN => false
  | Fin a, Fin b => match a ?= b with Lt => true | _ => false end
  | NInf, NInf | PInf, PInf => false
  | NInf, _ | _, PInf => true
  | PInf, _ | _, NInf => false
  end.

(** [x > y] *)
Definition gtb (x y : number) : bool := ltb y x.

(** [x <= y] *)
Definition leb (x y : number) : bool :=
  match x, y with
  | NaN, _ | _, NaN => false
  | Fin a, Fin b => match a ?= b with Gt => false | _ => true end
  | NInf, _ | _, PInf => true
  | PInf, _ | _, NInf => false
  end.

(** [Math.abs] *)
Definition abs (x : number) : number :=
  match x with
  | Fin q => Fin (Qabs q)
  | PInf | NInf => PInf
  | NaN => NaN
  end.

(** [Math.min(x, y)]: NaN as soon as one argument is NaN. *)
Definition min (x y : number) : number :=
  match x, y with
  | NaN, _ | _, NaN => NaN
  | _, _ => if ltb y x then y else x
  end.

(** [Math.max(x, y)] *)
Definition max (x y : number) : number :=
  match x, y with
  | NaN, _ | _, NaN => NaN
  | _, _ => if ltb x y then y else x
  end.

(** Decimal digits of a natural number, ["0"] for zero. *)
Definition decimal (n : Z) : string :=
  NilZero.string_of_uint (N.to_uint (Z.to_N n)).

(** Two decimal digits, with a leading zero below ten. *)
Definition two_digits (n : Z) : string :=
  if (n <? 10)%Z then ("0" ++ decimal n)%string else decimal n.

(** [x.toFixed(2)].  For a finite [x] the digits are those of the
    integer [n] for which [n / 100] is closest to [|x|], the larger one
    on a tie, and the sign is that of [x].  NaN and the infinities print
    by name.  (From 1e21 on JavaScript switches to the exponent notation
    of [ToString]; no such value occurs below.) *)
Definition toFixed2 (x : number) : string :=
  match x with
  | NaN => "NaN"
  | PInf => "Infinity"
  | NInf => "-Infinity"
  | Fin q =>
      let n := Qfloor (Qabs q * 100 + (1 # 2)) in
      let negative := match q ?= 0 with Lt => true | _ => false end in
      ((if negative then "-" else "")
         ++ decimal (n / 100)%Z ++ "." ++ two_digits (n mod 100)%Z)%string
  end.

End JsNumber.

Import JsNumber.

(** ** Double precision

    The finite doubles are the rationals [m * 2 ^ e] with [|m| < 2 ^ 53]
    and [-1074 <= e <= 971].  An operation of IEEE 754 returns the
    double nearest to the exact result, the one with an even [m] on a
    tie, and an infinity from [2 ^ 1024 - 2 ^ 970] on. *)

Module Double.

Definition pow2 (e : Z) : Q := Qpower 2 e.

(** The binary exponent of a positive rational [x]: the [e] with
    [2 ^ e <= x < 2 ^ (e + 1)]. *)
Definition exponent (x : Q) : Z :=
  let c := (Z.log2 (Qnum x) - Z.log2 (Zpos (Qden x)))%Z in
  if Qle_bool (pow2 c) x then c else (c - 1)%Z.

(** The integer nearest to a rational, the even one on a tie. *)
Definition nearest_even (m : Q) : Z :=
  let f := Qfloor m in
  match Qcompare (m - inject_Z f) (1 # 2) with
  | Lt => f
  | Gt => (f + 1)%Z
  | Eq => if Z.even f then f else (f + 1)%Z
  end.

(** The rounding of a positive rational to 53 bits: the doubles around
    [x] are the multiples of [2 ^ (e - 52)], where [e] is the exponent
    of [x] and at least -1022 (below, the doubles are spaced
    [2 ^ -1074] apart). *)
Definition nearest (x : Q) : Q :=
  let ulp := pow2 (Z.max (exponent x) (-1022) - 52) in
  inject_Z (nearest_even (x / ulp)) * ulp.

(** The double nearest to a rational. *)
Definition round64 (x : Q) : number :=
  match x ?= 0 with
  | Eq => Fin 0
  | Gt => if Qle_bool (pow2 1024) (nearest x) then PInf else Fin (Qred (nearest x))
  | Lt => if Qle_bool (pow2 1024) (nearest (- x)) then NInf
          else Fin (Qred (- nearest (- x)))
  end.

(** A decimal literal of the program text is the double nearest to
    it. *)
Definition literal (q : Q) : number := round64 q.

(** The result of an operation, rounded when it is finite. *)
Definition rounded (x : number) : number :=
  match x with
  | Fin q => round64 q
  | _ => x
  end.

(** [x + y], [x - y], [x * y] and [x / y] on doubles. *)
Definition radd (x y : number) : number := rounded (add x y).
Definition rsub (x y : number) : number := rounded (sub x y).
Definition rmul (x y : number) : number := rounded (mul x y).
Definition rdiv (x y : number) : number := rounded (div x y).

End Double.

Import Double.

(** ** system-info.ts

    The counters of [os.cpus()] are whole numbers of milliseconds and
    the sizes of [os.totalmem()] and [os.freemem()] whole numbers of
    bytes: their sums and differences are exact, and so is the division
    by [1024 * 1024 * 1024]. *)

Module SystemInfo.

(** The [times] of one entry of [os.cpus()], restricted to the three
    counters the code reads. *)
Record CpuTimes : Type := mkTimes {
  t_user : number;
  t_sys : number;
  t_idle : number
}.

(** The object returned by [getCpuInfo] and [getDynamicCpuUsage]. *)
Record CpuInfo : Type := mkCpuInfo {
  cpuNum : nat;
  sys : string;
  used : string;
  free : string
}.

(** The object returned by [getMemInfo]. *)
Record MemInfo : Type := mkMemInfo {
  m_total : string;
  m_used : string;
  m_free : string;
  m_usage : string
}.

(** [bytesToGB]: [(bytes / (1024 * 1024 * 1024)).toFixed(2)] *)
Definition bytesToGB (bytes : number) : string :=
  toFixed2 (div bytes (mul (mul (Fin 1024) (Fin 1024)) (Fin 1024))).

(** The reduction of [os.cpus()] that sums the counters of all cores,
    from [{ user: 0, sys: 0, idle: 0 }]. *)
Definition getCpuTimes (cpus : list CpuTimes) : CpuTimes :=
  fold_left
    (fun acc cpu =>
       mkTimes (add (t_user acc) (t_user cpu))
               (add (t_sys acc) (t_sys cpu))
               (add (t_idle acc) (t_idle cpu)))
    cpus (mkTimes (Fin 0) (Fin 0) (Fin 0)).

(** [(part / total) * 100], the number every usage field prints: the
    quotient is rounded to a double, and so is its product by 100. *)
Definition ratio100 (part total : number) : number :=
  rmul (rdiv part total) (Fin 100).

(** [((part / total) * 100).toFixed(2) + '%'] *)
Definition percentage (part total : number) : string :=
  (toFixed2 (ratio100 part total) ++ "%")%string.

(** [getCpuInfo], on the value [cpus] of [os.cpus()]. *)
Definition getCpuInfo (cpus : list CpuTimes) : CpuInfo :=
  let totalInfo := getCpuTimes cpus in
  let total := add (add (t_user totalInfo) (t_sys totalInfo)) (t_idle totalInfo) in
  mkCpuInfo (List.length cpus)
            (percentage (t_sys totalInfo) total)
            (percentage (t_user totalInfo) total)
            (percentage (t_idle totalInfo) total).

(** [getMemInfo], on the values of [os.totalmem()] and [os.freemem()]. *)
Definition getMemInfo (totalMemory freeMemory : number) : MemInfo :=
  let usedMemory := sub totalMemory freeMemory in
  mkMemInfo (bytesToGB totalMemory ++ " GB")%string
            (bytesToGB usedMemory ++ " GB")%string
            (bytesToGB freeMemory ++ " GB")%string
            (percentage usedMemory totalMemory).

(** The three differences of [getDynamicCpuUsage] between the second and
    the first sample. *)
Definition delta (start end_ : CpuTimes) : CpuTimes :=
  mkTimes (sub (t_user end_) (t_user start))
          (sub (t_sys end_) (t_sys start))
          (sub (t_idle end_) (t_idle start)).

Definition delta_total (d : CpuTimes) : number :=
  add (add (t_user d) (t_sys d)) (t_idle d).

(** [getDynamicCpuUsage]: [cpus0] is the value of [os.cpus()] at the
    first sample and [cpus1] its value one second later, at the second
    sample (and for [cpuNum]). *)
Definition getDynamicCpuUsage (cpus0 cpus1 : list CpuTimes) : CpuInfo :=
  let start := getCpuTimes cpus0 in
  let end_ := getCpuTimes cpus1 in
  let delta := delta start end_ in
  let total := delta_total delta in
  mkCpuInfo (List.length cpus1)
            (percentage (t_sys delta) total)
            (percentage (t_user delta) total)
            (percentage (t_idle delta) total).

End SystemInfo.

(** ** dynamic-monitoring.ts: TrendAnalyzer

    The values are usages, any doubles: every operation rounds. *)

Module TrendAnalyzer.

Inductive trend : Type := up | down | stable.

(** [values.reduce((sum, value) => sum + value, 0)] *)
Definition total (values : list number) : number :=
  fold_left (fun sum value => radd sum value) values (Fin 0).

Definition calculateAverage (values : list number) : number :=
  if (List.length values =? 0)%nat then Fin 0
  else rdiv (total values) (of_nat (List.length values)).

(** [Math.floor(values.length / 2)] *)
Definition half (values : list number) : nat := (List.length values / 2)%nat.

Definition calculateTrend (values : list number) : trend :=
  if (List.length values <? 2)%nat then stable
  else
    let firstHalf := firstn (half values) values in
    let secondHalf := skipn (half values) values in
    let firstAvg := calculateAverage firstHalf in
    let secondAvg := calculateAverage secondHalf in
    let difference := rsub secondAvg firstAvg in
    let threshold := rmul firstAvg (literal 0.05) in
    if ltb (abs difference) threshold then stable
    else if gtb difference (Fin 0) then up else down.

(** The clamp of a predicted value: [Math.max(0, Math.min(100, v))]. *)
Definition clamp (v : number) : number := max (Fin 0) (min (Fin 100) v).

(** The indices [1 .. periods] the prediction loop runs over; none when
    [periods] is below one. *)
Definition steps (periods : Z) : list Z :=
  map Z.of_nat (seq 1 (Z.to_nat periods)).

Definition slope_of (n sumX sumY sumXY sumXX : number) : number :=
  rdiv (rsub (rmul n sumXY) (rmul sumX sumY)) (rsub (rmul n sumXX) (rmul sumX sumX)).

Definition intercept_of (n sumX sumY slope : number) : number :=
  rdiv (rsub sumY (rmul slope sumX)) n.

(** [predictTrend]; [periods] is an integer (the default is 5). *)
Definition predictTrend (values : list number) (periods : Z) : list number :=
  if (List.length values <? 3)%nat then []
  else
    let n := of_nat (List.length values) in
    let x := map of_nat (seq 0 (List.length values)) in
    let y := values in
    let sumX := fold_left (fun a b => radd a b) x (Fin 0) in
    let sumY := fold_left (fun a b => radd a b) y (Fin 0) in
    let sumXY :=
      fold_left (fun sum xy => radd sum (rmul (fst xy) (snd xy))) (combine x y) (Fin 0) in
    let sumXX := fold_left (fun sum xi => radd sum (rmul xi xi)) x (Fin 0) in
    let slope := slope_of n sumX sumY sumXY sumXX in
    let intercept := intercept_of n sumX sumY slope in
    map (fun i =>
           let predictedValue :=
             radd (rmul slope (rsub (radd n (of_Z i)) (Fin 1))) intercept in
           clamp predictedValue)
        (steps periods).

End TrendAnalyzer.

(** ** dynamic-monitoring.ts: the interfaces *)

(** What a call of a JavaScript callback does: it returns a value or it
    throws. *)
Inductive completion (A : Type) : Type :=
| Normal (a : A)
| Throw (error : string).
Arguments Normal {A} a.
Arguments Throw {A} error.

(** One entry of [MonitoringDataPoint.disk]. *)
Record DiskPoint : Type := mkDisk {
  mounted : string;
  disk_total : number;
  disk_used : number;
  disk_usage : number
}.

(** [MonitoringDataPoint]; the nested objects [cpu], [memory] and
    [system] are flattened into prefixed fields. *)
Record MonitoringDataPoint : Type := mkPoint {
  timestamp : number;
  cpu_usage : number;
  cpu_cores : number;
  memory_total : number;
  memory_used : number;
  memory_free : number;
  memory_usage : number;
  disk : list DiskPoint;
  system_uptime : number;
  system_loadAverage : list number
}.

Record Thresholds : Type := mkThresholds {
  th_cpu : number;
  th_memory : number;
  th_disk : number
}.

(** [MonitoringConfig] *)
Record MonitoringConfig : Type := mkConfig {
  interval : number;
  historySize : number;
  enableAlerts : bool;
  thresholds : Thresholds
}.

(** [Partial<MonitoringConfig>]: each property is present or not. *)
Record PartialConfig : Type := mkPartial {
  p_interval : option number;
  p_historySize : option number;
  p_enableAlerts : option bool;
  p_thresholds : option Thresholds
}.

(** The object spread [{ ...config, ...newConfig }]: a property of
    [newConfig] that is present replaces the one of [config]. *)
Definition spread (config : MonitoringConfig) (newConfig : PartialConfig)
  : MonitoringConfig :=
  mkConfig
    (match p_interval newConfig with Some v => v | None => interval config end)
    (match p_historySize newConfig with Some v => v | None => historySize config end)
    (match p_enableAlerts newConfig with Some v => v | None => enableAlerts config end)
    (match p_thresholds newConfig with Some v => v | None => thresholds config end).

(** ** The string functions of JavaScript the monitor uses

    Strings are sequences of ASCII characters here: the white space and
    the letters outside ASCII are not modelled. *)

Module JsString.

Definition is_digit (c : ascii) : bool :=
  (48 <=? nat_of_ascii c)%nat && (nat_of_ascii c <=? 57)%nat.

(** The white space of [\s] and of [parseFloat]: tab, line feed,
    vertical tab, form feed, carriage return and space. *)
Definition is_space (c : ascii) : bool :=
  (nat_of_ascii c =? 32)%nat
  || ((9 <=? nat_of_ascii c)%nat && (nat_of_ascii c <=? 13)%nat).

(** [\w]: a letter, a digit or the underscore. *)
Definition is_word (c : ascii) : bool :=
  is_digit c
  || ((65 <=? nat_of_ascii c)%nat && (nat_of_ascii c <=? 90)%nat)
  || ((97 <=? nat_of_ascii c)%nat && (nat_of_ascii c <=? 122)%nat)
  || (nat_of_ascii c =? 95)%nat.

(** The longest prefix whose characters satisfy [f], and the rest. *)
Fixpoint take_while (f : ascii -> bool) (s : string) : string * string :=
  match s with
  | String c rest =>
      if f c then (String c (fst (take_while f rest)), snd (take_while f rest))
      else (EmptyString, s)
  | EmptyString => (EmptyString, EmptyString)
  end.

Fixpoint all_chars (f : ascii -> bool) (s : string) : bool :=
  match s with
  | String c rest => f c && all_chars f rest
  | EmptyString => true
  end.

(** The first [k] characters, and the rest. *)
Fixpoint split_at (k : nat) (s : string) : string * string :=
  match k, s with
  | S k', String c rest => (String c (fst (split_at k' rest)), snd (split_at k' rest))
  | _, _ => (EmptyString, s)
  end.

(** The number a string of decimal digits denotes. *)
Definition digits_value (digits : string) : Z :=
  match NilEmpty.uint_of_string digits with
  | Some d => Z.of_N (N.of_uint d)
  | None => 0%Z
  end.

(** [s.toUpperCase()] *)
Fixpoint toUpperCase (s : string) : string :=
  match s with
  | String c rest =>
      String (if (97 <=? nat_of_ascii c)%nat && (nat_of_ascii c <=? 122)%nat
              then ascii_of_nat (nat_of_ascii c - 32) else c)
             (toUpperCase rest)
  | EmptyString => EmptyString
  end.

(** [s.replace(c, '')] for a one-character pattern: the first
    occurrence goes. *)
Fixpoint remove_first (c : ascii) (s : string) : string :=
  match s with
  | String c' rest => if Ascii.eqb c' c then rest else String c' (remove_first c rest)
  | EmptyString => EmptyString
  end.

(** A sign in front of digits: whether it is a minus, and what follows
    it. *)
Definition read_sign (s : string) : bool * string :=
  match s with
  | String "-" rest => (true, rest)
  | String "+" rest => (false, rest)
  | _ => (false, s)
  end.

(** The exponent part that follows a mantissa: [e] or [E], an optional
    sign and one digit at least; anything else is no exponent. *)
Definition read_exponent (s : string) : Z :=
  match s with
  | String c rest =>
      if Ascii.eqb c "e" || Ascii.eqb c "E" then
        let digits := fst (take_while is_digit (snd (read_sign rest))) in
        if String.eqb digits "" then 0%Z
        else if fst (read_sign rest) then (- digits_value digits)%Z
             else digits_value digits
      else 0%Z
  | EmptyString => 0%Z
  end.

(** [parseFloat]: leading white space is skipped; then the longest
    prefix that is a decimal literal counts, and NaN is returned when
    there is none. *)
Definition parseFloat (s : string) : number :=
  let s := snd (take_while is_space s) in
  let negative := fst (read_sign s) in
  let s := snd (read_sign s) in
  if String.prefix "Infinity" s then (if negative then NInf else PInf)
  else
    let int_part := fst (take_while is_digit s) in
    let rest := snd (take_while is_digit s) in
    let frac_part :=
      match rest with
      | String "." after => fst (take_while is_digit after)
      | _ => EmptyString
      end in
    let rest :=
      match rest with
      | String "." after => snd (take_while is_digit after)
      | _ => rest
      end in
    if String.eqb int_part "" && String.eqb frac_part "" then NaN
    else
      let mantissa :=
        inject_Z (digits_value int_part)
        + inject_Z (digits_value frac_part)
          / inject_Z (10 ^ Z.of_nat (String.length frac_part)) in
      let value := mantissa * Qpower 10 (read_exponent rest) in
      Fin (if negative then - value else value).

End JsString.

(** ** dynamic-monitoring.ts: the data point of collectData *)

Module DataPoints.

Import JsString SystemInfo.

(** [\s*(\w+)$] on what follows the digits: the unit, when there is
    one. *)
Definition match_unit (rest : string) : option string :=
  let unit := snd (take_while is_space rest) in
  if negb (String.eqb unit "") && all_chars is_word unit then Some unit else None.

(** [^([\d.]+)\s*(\w+)$] with at most [k] characters in the first
    group: the longest first group for which the rest matches wins. *)
Fixpoint match_size (k : nat) (sizeStr : string) : option (string * string) :=
  match k with
  | O => None
  | S k' =>
      match match_unit (snd (split_at k sizeStr)) with
      | Some unit => Some (fst (split_at k sizeStr), unit)
      | None => match_size k' sizeStr
      end
  end.

(** [multipliers[unit] || 1] *)
Definition multiplier (unit : string) : Q :=
  if String.eqb unit "B" then 1
  else if String.eqb unit "KB" then 1024
  else if String.eqb unit "MB" then 1024 * 1024
  else if String.eqb unit "GB" then 1024 * 1024 * 1024
  else if String.eqb unit "TB" then 1024 * 1024 * 1024 * 1024
  else 1.

(** The private [parseSize] of the monitor. *)
Definition parseSize (sizeStr : string) : number :=
  let digits_or_dots :=
    fst (take_while (fun c => is_digit c || Ascii.eqb c ".") sizeStr) in
  match match_size (String.length digits_or_dots) sizeStr with
  | None => Fin 0
  | Some (value, unit) =>
      mul (parseFloat value) (Fin (multiplier (toUpperCase unit)))
  end.

(** One entry of the result of [getDiskInfo]. *)
Record DiskInfo : Type := mkDiskInfo {
  di_mounted : string;
  di_filesystem : string;
  di_total : string;
  di_used : string;
  di_free : string;
  di_usage : string
}.

(** What [collectData] awaits: the results of [getCpuUsage], which is
    [getCpuInfo], of [getMemInfo] and of [getDiskInfo].  The result of
    [getSysInfo] is awaited too and not used. *)
Record Readings : Type := mkReadings {
  r_cpuInfo : CpuInfo;
  r_memInfo : MemInfo;
  r_diskInfo : list DiskInfo
}.

(** The module imports [EventEmitter] from ['events'] and four
    functions from ['./system-info'], and nothing else: the identifier
    [os] is bound nowhere in it, and the evaluation of [os.uptime()] or
    of [os.loadavg()] throws a [ReferenceError]. *)
Definition os_is_not_defined : string := "ReferenceError: os is not defined".

Definition os_uptime : completion number := Throw os_is_not_defined.

Definition os_loadavg : completion (list number) := Throw os_is_not_defined.

(** The object literal [dataPoint] of [collectData], its properties
    evaluated in the order of the text; [timestamp] is the value of
    [Date.now()]. *)
Definition buildDataPoint (timestamp : number) (readings : Readings)
  : completion MonitoringDataPoint :=
  let cpuInfo := r_cpuInfo readings in
  let memInfo := r_memInfo readings in
  let diskInfo := r_diskInfo readings in
  let usage := parseFloat (remove_first "%" (used cpuInfo)) in
  let cores := of_nat (cpuNum cpuInfo) in
  let memory_total := parseSize (m_total memInfo) in
  let memory_used := parseSize (m_used memInfo) in
  let memory_free := parseSize (m_free memInfo) in
  let memory_usage := parseFloat (remove_first "%" (m_usage memInfo)) in
  let disk :=
    map (fun disk => mkDisk (di_mounted disk)
                            (parseSize (di_total disk))
                            (parseSize (di_used disk))
                            (parseFloat (remove_first "%" (di_usage disk))))
        diskInfo in
  match os_uptime with
  | Throw error => Throw error
  | Normal uptime =>
      match os_loadavg with
      | Throw error => Throw error
      | Normal loadAverage =>
          Normal (mkPoint timestamp usage cores memory_total memory_used memory_free
                          memory_usage disk uptime loadAverage)
      end
  end.

End DataPoints.

(** ** dynamic-monitoring.ts: DynamicMonitor *)

Module DynamicMonitor.

Import DataPoints.

(** The events the monitor emits. *)
Inductive Event : Type :=
| EvStart
| EvStop
| EvData (dataPoint : MonitoringDataPoint)
| EvError (error : string)
| EvAlert (timestamp : number) (alerts : list string) (dataPoint : MonitoringDataPoint)
| EvConfigUpdated (config : MonitoringConfig)
| EvHistoryCleared.

(** The lines written to the console. *)
Inductive ConsoleLine : Type :=
| WarnAlreadyRunning
| WarnNotRunning
| LogStarted (interval : number)
| LogStopped
| ErrorCollect (error : string).

(** The fields of the class. *)
Record Fields : Type := mkFields {
  config : MonitoringConfig;
  history : list MonitoringDataPoint;
  intervalId : option nat;
  isRunning : bool
}.

(** What the monitor acts on besides its fields: the interval timers of
    the event loop that are active (handle and period), the next fresh
    handle, the number of [collectData] calls that are waiting for their
    readings, the events emitted and the console. *)
Record Runtime : Type := mkRuntime {
  timers : list (nat * number);
  nextTimer : nat;
  pending : nat;
  emitted : list Event;
  console : list ConsoleLine
}.

Definition State : Type := (Fields * Runtime)%type.

Definition emit (e : Event) (rt : Runtime) : Runtime :=
  mkRuntime (timers rt) (nextTimer rt) (pending rt) (emitted rt ++ [e]) (console rt).

Definition print (l : ConsoleLine) (rt : Runtime) : Runtime :=
  mkRuntime (timers rt) (nextTimer rt) (pending rt) (emitted rt) (console rt ++ [l]).

(** [setInterval(callback, period)]: a new active timer; its handle is
    returned. *)
Definition setInterval (period : number) (rt : Runtime) : nat * Runtime :=
  (nextTimer rt,
   mkRuntime (timers rt ++ [(nextTimer rt, period)]) (S (nextTimer rt))
             (pending rt) (emitted rt) (console rt)).

(** [clearInterval(handle)] *)
Definition clearInterval (handle : nat) (rt : Runtime) : Runtime :=
  mkRuntime (filter (fun t => negb (fst t =? handle)%nat) (timers rt))
            (nextTimer rt) (pending rt) (emitted rt) (console rt).

(** A call of the asynchronous [collectData]: it runs up to its [await]
    and is then pending. *)
Definition call_collectData (rt : Runtime) : Runtime :=
  mkRuntime (timers rt) (nextTimer rt) (S (pending rt)) (emitted rt) (console rt).

Definition defaultConfig : MonitoringConfig :=
  mkConfig (Fin 5000) (Fin 1000) true (mkThresholds (Fin 80) (Fin 85) (Fin 90)).

(** [new DynamicMonitor(config)] in a runtime without timers. *)
Definition constructor (config : PartialConfig) : State :=
  (mkFields (spread defaultConfig config) [] None false,
   mkRuntime [] 0 0 [] []).

Definition start (s : State) : State :=
  let (this, rt) := s in
  if isRunning this then (this, print WarnAlreadyRunning rt)
  else
    let rt := emit EvStart rt in
    let rt := call_collectData rt in
    let (handle, rt) := setInterval (interval (config this)) rt in
    (mkFields (config this) (history this) (Some handle) true,
     print (LogStarted (interval (config this))) rt).

Definition stop (s : State) : State :=
  let (this, rt) := s in
  if negb (isRunning this) then (this, print WarnNotRunning rt)
  else
    let rt := match intervalId this with
              | Some handle => clearInterval handle rt
              | None => rt
              end in
    (mkFields (config this) (history this) None false,
     print LogStopped (emit EvStop rt)).

(** [start] when listeners of ['start'] are registered: [emit] calls
    them before it returns, between [this.isRunning = true] and the
    call of [setInterval]; [listener] is what they do to the monitor.
    With the listener that does nothing this is [start]. *)
Definition start_listened (listener : State -> State) (s : State) : State :=
  let (this, rt) := s in
  if isRunning this then (this, print WarnAlreadyRunning rt)
  else
    let (this, rt) :=
      listener (mkFields (config this) (history this) (intervalId this) true,
                emit EvStart rt) in
    let rt := call_collectData rt in
    let (handle, rt) := setInterval (interval (config this)) rt in
    (mkFields (config this) (history this) (Some handle) (isRunning this),
     print (LogStarted (interval (config this))) rt).

(** [addDataPoint]: [push], then one [shift] when the length exceeds
    [historySize]. *)
Definition addDataPoint (dataPoint : MonitoringDataPoint) (this : Fields) : Fields :=
  let pushed := history this ++ [dataPoint] in
  mkFields (config this)
           (if gtb (of_nat (List.length pushed)) (historySize (config this))
            then tl pushed else pushed)
           (intervalId this) (isRunning this).

(** The private [checkAlerts] of the monitor: the texts of the
    thresholds exceeded, emitted in one ['alert'] event when there are
    some. *)
Definition alertTexts (config : MonitoringConfig) (dataPoint : MonitoringDataPoint)
  : list string :=
  (if gtb (cpu_usage dataPoint) (th_cpu (thresholds config))
   then [("CPU 使用率过高: " ++ toFixed2 (cpu_usage dataPoint) ++ "%")%string] else [])
  ++ (if gtb (memory_usage dataPoint) (th_memory (thresholds config))
      then [("内存使用率过高: " ++ toFixed2 (memory_usage dataPoint) ++ "%")%string] else [])
  ++ flat_map
       (fun d =>
          if gtb (disk_usage d) (th_disk (thresholds config))
          then [("磁盘 " ++ mounted d ++ " 使用率过高: "
                 ++ toFixed2 (disk_usage d) ++ "%")%string]
          else [])
       (disk dataPoint).

Definition checkAlerts (dataPoint : MonitoringDataPoint) (s : State) : State :=
  let (this, rt) := s in
  let alerts := alertTexts (config this) dataPoint in
  if (0 <? List.length alerts)%nat
  then (this, emit (EvAlert (timestamp dataPoint) alerts dataPoint) rt)
  else s.

(** An interval timer fires: its callback calls [collectData].  A handle
    that is not active fires nothing. *)
Definition fire (handle : nat) (s : State) : State :=
  let (this, rt) := s in
  if existsb (fun t => (fst t =? handle)%nat) (timers rt)
  then (this, call_collectData rt) else s.

(** A pending [collectData] goes on after its [await]: [timestamp] is
    the value [Date.now()] had when it was called, [readings] are the
    values awaited, or the error one of the readings threw. *)
Definition collectData (timestamp : number) (readings : completion Readings)
    (s : State) : State :=
  let (this, rt) := s in
  let rt := mkRuntime (timers rt) (nextTimer rt) (Nat.pred (pending rt))
                      (emitted rt) (console rt) in
  let built :=
    match readings with
    | Normal values => buildDataPoint timestamp values
    | Throw error => Throw error
    end in
  match built with
  | Normal dataPoint =>
      let this := addDataPoint dataPoint this in
      let (this, rt) :=
        if enableAlerts (config this) then checkAlerts dataPoint (this, rt)
        else (this, rt) in
      (this, emit (EvData dataPoint) rt)
  | Throw error =>
      (this, emit (EvError error) (print (ErrorCollect error) rt))
  end.

(** [getHistory()] without a count. *)
Definition getHistory (s : State) : list MonitoringDataPoint := history (fst s).

Definition updateConfig (newConfig : PartialConfig) (s : State) : State :=
  let wasRunning := isRunning (fst s) in
  let s := if wasRunning then stop s else s in
  let s := (mkFields (spread (config (fst s)) newConfig) (history (fst s))
                     (intervalId (fst s)) (isRunning (fst s)), snd s) in
  let s := if wasRunning then start s else s in
  (fst s, emit (EvConfigUpdated (config (fst s))) (snd s)).

(** [this.history = []] *)
Definition resetHistory (this : Fields) : Fields :=
  mkFields (config this) [] (intervalId this) (isRunning this).

Definition clearHistory (s : State) : State :=
  (resetHistory (fst s), emit EvHistoryCleared (snd s)).

(** The operations a client or the event loop performs on a monitor. *)
Inductive Op : Type :=
| OpStart
| OpStop
| OpUpdateConfig (newConfig : PartialConfig)
| OpClearHistory
| OpFire (handle : nat)
| OpCollected (timestamp : number) (readings : completion Readings).

Definition run_op (o : Op) (s : State) : State :=
  match o with
  | OpStart => start s
  | OpStop => stop s
  | OpUpdateConfig c => updateConfig c s
  | OpClearHistory => clearHistory s
  | OpFire h => fire h s
  | OpCollected t r => if (0 <? pending (snd s))%nat then collectData t r s else s
  end.

Definition run (ops : list Op) (s : State) : State :=
  fold_left (fun s o => run_op o s) ops s.

(** The states a monitor can be in: those a sequence of operations
    reaches from a newly constructed one. *)
Definition reachable (s : State) : Prop :=
  exists config ops, s = run ops (constructor config).

(** [addDataPoint] for each point of a sequence, in order. *)
Definition push_all (points : list MonitoringDataPoint) (this : Fields) : Fields :=
  fold_left (fun this dataPoint => addDataPoint dataPoint this) points this.

(** The two operations that write the history: the push of
    [addDataPoint] and the reset of [clearHistory]. *)
Inductive HistoryOp : Type :=
| Push (dataPoint : MonitoringDataPoint)
| Clear.

Definition history_op (o : HistoryOp) (this : Fields) : Fields :=
  match o with
  | Push dataPoint => addDataPoint dataPoint this
  | Clear => resetHistory this
  end.

Definition history_ops (ops : list HistoryOp) (this : Fields) : Fields :=
  fold_left (fun this o => history_op o this) ops this.

(** The timers of a monitor and its fields agree: a running monitor
    holds the handle of the one active timer, a stopped one holds none
    and no timer is active. *)
Definition timers_agree (s : State) : Prop :=
  match intervalId (fst s) with
  | Some handle =>
      isRunning (fst s) = true /\ exists period, timers (snd s) = [(handle, period)]
  | None => isRunning (fst s) = false /\ timers (snd s) = []
  end.

(** The events that carry a data point: ['data'] and ['alert']. *)
Definition carries_data (e : Event) : bool :=
  match e with
  | EvData _ | EvAlert _ _ _ => true
  | _ => false
  end.

End DynamicMonitor.

(** ** dynamic-monitoring.ts: AlertManager *)

Module AlertManager.

Inductive AlertLevel : Type := INFO | WARNING | ERROR | CRITICAL.

Record Alert : Type := mkAlert {
  id : string;
  level : AlertLevel;
  message : string;
  alert_timestamp : number;
  resolved : bool;
  resolvedAt : option number;
  data : MonitoringDataPoint
}.

(** [AlertRule]: the two callbacks may throw, as any JavaScript function
    can. *)
Record AlertRule : Type := mkRule {
  rule_id : string;
  rule_level : AlertLevel;
  condition : MonitoringDataPoint -> completion bool;
  rule_message : MonitoringDataPoint -> completion string
}.

(** The events the manager emits, ['alert'], ['alertResolved'] and
    ['alertsCleared'], with the alert as it is when emitted. *)
Inductive Event : Type :=
| EvAlert (alert : Alert)
| EvAlertResolved (alert : Alert)
| EvAlertsCleared.

(** [Map<string, Alert>], in insertion order. *)
Definition AlertMap : Type := list (string * Alert).

Fixpoint map_get (key : string) (m : AlertMap) : option Alert :=
  match m with
  | [] => None
  | (k, a) :: rest => if String.eqb k key then Some a else map_get key rest
  end.

Definition map_has (key : string) (m : AlertMap) : bool :=
  match map_get key m with Some _ => true | None => false end.

(** [Map.prototype.set]: the value of a key that is present is replaced
    where it stands, a new key goes to the end. *)
Fixpoint map_set (key : string) (a : Alert) (m : AlertMap) : AlertMap :=
  match m with
  | [] => [(key, a)]
  | (k, b) :: rest =>
      if String.eqb k key then (k, a) :: rest else (k, b) :: map_set key a rest
  end.

(** The fields of the class and the events emitted so far. *)
Record State : Type := mkState {
  alerts : AlertMap;
  rules : list AlertRule;
  emitted : list Event
}.

Definition constructor : State := mkState [] [] [].

Definition addRule (rule : AlertRule) (this : State) : State :=
  mkState (alerts this) (rules this ++ [rule]) (emitted this).

(** [existingAlert.resolved = true; existingAlert.resolvedAt = now] *)
Definition resolve (now : number) (a : Alert) : Alert :=
  mkAlert (id a) (level a) (message a) (alert_timestamp a) true (Some now) (data a).

(** The body of the [forEach] callback of [checkAlerts] for one rule;
    [now] is the value of [Date.now()].  The result is the state the
    body leaves and the error it threw, if any. *)
Definition checkRule (now : number) (dataPoint : MonitoringDataPoint)
    (rule : AlertRule) (this : State) : State * option string :=
  match condition rule dataPoint with
  | Throw error => (this, Some error)
  | Normal shouldAlert =>
      let alertId := rule_id rule in
      if shouldAlert then
        if negb (map_has alertId (alerts this))
           || match map_get alertId (alerts this) with
              | Some a => resolved a
              | None => false
              end
        then
          match rule_message rule dataPoint with
          | Throw error => (this, Some error)
          | Normal text =>
              let alert :=
                mkAlert alertId (rule_level rule) text now false None dataPoint in
              (mkState (map_set alertId alert (alerts this)) (rules this)
                       (emitted this ++ [EvAlert alert]),
               None)
          end
        else (this, None)
      else
        match map_get alertId (alerts this) with
        | Some existingAlert =>
            if negb (resolved existingAlert) then
              let existingAlert := resolve now existingAlert in
              (mkState (map_set alertId existingAlert (alerts this)) (rules this)
                       (emitted this ++ [EvAlertResolved existingAlert]),
               None)
            else (this, None)
        | None => (this, None)
        end
  end.

(** [rules.forEach(...)]: the rules in order; an error thrown by the
    callback ends the loop and is thrown on. *)
Fixpoint forEach (now : number) (dataPoint : MonitoringDataPoint)
    (todo : list AlertRule) (this : State) : State * option string :=
  match todo with
  | [] => (this, None)
  | rule :: rest =>
      match checkRule now dataPoint rule this with
      | (this', None) => forEach now dataPoint rest this'
      | thrown => thrown
      end
  end.

Definition checkAlerts (now : number) (dataPoint : MonitoringDataPoint)
    (this : State) : State * option string :=
  forEach now dataPoint (rules this) this.

Definition getActiveAlerts (this : State) : list Alert :=
  filter (fun alert => negb (resolved alert)) (map snd (alerts this)).

Definition getAllAlerts (this : State) : list Alert := map snd (alerts this).

Definition clearAlerts (this : State) : State :=
  mkState [] (rules this) (emitted this ++ [EvAlertsCleared]).

(** The predefined rules. *)
Definition find_high_disk (d : MonitoringDataPoint) : option DiskPoint :=
  find (fun disk => gtb (disk_usage disk) (Fin 90)) (disk d).

Definition defaultAlertRules : list AlertRule :=
  [ mkRule "high-cpu" WARNING
      (fun data => Normal (gtb (cpu_usage data) (Fin 80)))
      (fun data => Normal ("CPU 使用率过高: " ++ toFixed2 (cpu_usage data) ++ "%")%string);
    mkRule "critical-cpu" CRITICAL
      (fun data => Normal (gtb (cpu_usage data) (Fin 95)))
      (fun data => Normal ("CPU 使用率严重过高: " ++ toFixed2 (cpu_usage data) ++ "%")%string);
    mkRule "high-memory" WARNING
      (fun data => Normal (gtb (memory_usage data) (Fin 85)))
      (fun data => Normal ("内存使用率过高: " ++ toFixed2 (memory_usage data) ++ "%")%string);
    mkRule "critical-memory" CRITICAL
      (fun data => Normal (gtb (memory_usage data) (Fin 95)))
      (fun data => Normal ("内存使用率严重过高: " ++ toFixed2 (memory_usage data) ++ "%")%string);
    mkRule "high-disk" WARNING
      (fun data => Normal (existsb (fun disk => gtb (disk_usage disk) (Fin 90)) (disk data)))
      (fun data =>
         Normal
           match find_high_disk data with
           | Some highDisk =>
               ("磁盘 " ++ mounted highDisk ++ " 使用率过高: "
                  ++ toFixed2 (disk_usage highDisk) ++ "%")%string
           | None => "磁盘 undefined 使用率过高: undefined%"
           end) ].

(** *** Traces *)

(** The kind of an event about the alert [key]. *)
Inductive Edge : Type := Raise | Resolve.

Definition edge_of (key : string) (e : Event) : list Edge :=
  match e with
  | EvAlert a => if String.eqb (id a) key then [Raise] else []
  | EvAlertResolved a => if String.eqb (id a) key then [Resolve] else []
  | EvAlertsCleared => []
  end.

Definition edges (key : string) (events : list Event) : list Edge :=
  flat_map (edge_of key) events.

(** One tick: the time read by [Date.now()] and the data point. *)
Definition Tick : Type := (number * MonitoringDataPoint)%type.

(** [checkAlerts] tick after tick, from a log that is emptied before
    each call; the result is the list of what each call emitted and
    whether it threw, and the final state. *)
Fixpoint feed (ticks : list Tick) (this : State)
  : list (list Event * option string) * State :=
  match ticks with
  | [] => ([], this)
  | (now, dataPoint) :: rest =>
      let (this', thrown) :=
        checkAlerts now dataPoint (mkState (alerts this) (rules this) []) in
      let (outs, final) := feed rest this' in
      ((emitted this', thrown) :: outs, final)
  end.

(** An alert is firing when its record exists and is not resolved. *)
Definition firing (key : string) (this : State) : bool :=
  match map_get key (alerts this) with
  | Some a => negb (resolved a)
  | None => false
  end.

(** Every record of the map carries the key it is stored under. *)
Definition well_keyed (m : AlertMap) : Prop :=
  forall key a, map_get key m = Some a -> id a = key.

(** Both callbacks of a rule return normally on a data point. *)
Definition returns_on (dataPoint : MonitoringDataPoint) (rule : AlertRule) : Prop :=
  (exists b, condition rule dataPoint = Normal b)
  /\ (exists text, rule_message rule dataPoint = Normal text).

(** No callback of the rules throws on any of the ticks. *)
Definition quiet (todo : list AlertRule) (ticks : list Tick) : Prop :=
  forall tick rule, In tick ticks -> In rule todo -> returns_on (snd tick) rule.

(** What an edge-triggered alert emits on a tick, from whether it was
    firing before and whether its condition holds now. *)
Definition edge (was_firing holds : bool) : list Edge :=
  if holds then (if was_firing then [] else [Raise])
  else (if was_firing then [Resolve] else []).

Fixpoint edge_trace (was_firing : bool) (holds : list bool) : list (list Edge) :=
  match holds with
  | [] => []
  | b :: rest => edge was_firing b :: edge_trace b rest
  end.

(** The value a condition returns, [false] standing for a throw. *)
Definition holds_on (rule : AlertRule) (tick : Tick) : bool :=
  match condition rule (snd tick) with
  | Normal b => b
  | Throw _ => false
  end.

End AlertManager.

(** ** The claims' reference definitions *)

Module Reference.

Import TrendAnalyzer.

(** Sum and mean of rationals, the mean of no value being 0. *)
Definition Qsum (qs : list Q) : Q := fold_left Qplus qs 0.

Definition Qmean (qs : list Q) : Q :=
  if (List.length qs =? 0)%nat then 0
  else Qsum qs / inject_Z (Z.of_nat (List.length qs)).

(** The trend as the specification words it: the two halves have
    [floor (n / 2)] values each, so the middle value of a window of odd
    length is in neither; the threshold is 5% of the first mean, and the
    absolute value 1 when the first mean is 0. *)
Definition trend_spec (qs : list Q) : trend :=
  let h := (List.length qs / 2)%nat in
  let firstMean := Qmean (firstn h qs) in
  let secondMean := Qmean (skipn (List.length qs - h) qs) in
  let bound := if Qeq_bool firstMean 0 then 1 else 0.05 * firstMean in
  match Qabs (secondMean - firstMean) ?= bound with
  | Lt => stable
  | _ => match secondMean - firstMean ?= 0 with Gt => up | _ => down end
  end.

(** The mean of values in double arithmetic: their sum, taken from the
    left starting at 0, divided by their number; 0 for no value. *)
Fixpoint sum_doubles (start : number) (values : list number) : number :=
  match values with
  | [] => start
  | value :: rest => sum_doubles (radd start value) rest
  end.

Definition mean_doubles (values : list number) : number :=
  match values with
  | [] => Fin 0
  | _ :: _ => rdiv (sum_doubles (Fin 0) values) (of_nat (List.length values))
  end.

(** The index [i] of a value, as a rational. *)
Definition position (i : nat) : Q := inject_Z (Z.of_nat i).

(** The squared error of the line [a * x + b] on the points
    [(first, y0), (first + 1, y1), ...]. *)
Fixpoint sse (first : nat) (ys : list Q) (a b : Q) : Q :=
  match ys with
  | [] => 0
  | y :: rest =>
      let r := y - (a * position first + b) in
      r * r + sse (S first) rest a b
  end.

(** [(slope, intercept)] is a least-squares line of the values against
    their positions [0 .. n - 1]. *)
Definition least_squares (ys : list Q) (slope intercept : Q) : Prop :=
  forall a b, sse 0 ys slope intercept <= sse 0 ys a b.

(** The positions [first, first + 1, ...] paired with the values. *)
Definition points (first : nat) (ys : list Q) : list (Q * Q) :=
  combine (map position (seq first (List.length ys))) ys.

(** The sum of [f x y] over the points [(x, y)]. *)
Fixpoint psum (f : Q -> Q -> Q) (ps : list (Q * Q)) : Q :=
  match ps with
  | [] => 0
  | p :: rest => f (fst p) (snd p) + psum f rest
  end.

(** The five sums of the regression in exact arithmetic, and the slope
    and intercept they give. *)
Definition Qpositions (n : nat) : list Q := map position (seq 0 n).

Definition QsumX (ys : list Q) : Q := fold_left Qplus (Qpositions (List.length ys)) 0.
Definition QsumY (ys : list Q) : Q := fold_left Qplus ys 0.
Definition QsumXY (ys : list Q) : Q :=
  fold_left (fun sum xy => sum + fst xy * snd xy)
            (combine (Qpositions (List.length ys)) ys) 0.
Definition QsumXX (ys : list Q) : Q :=
  fold_left (fun sum xi => sum + xi * xi) (Qpositions (List.length ys)) 0.
Definition Qn (ys : list Q) : Q := position (List.length ys).

Definition Qslope (ys : list Q) : Q :=
  (Qn ys * QsumXY ys + - (QsumX ys * QsumY ys))
  / (Qn ys * QsumXX ys + - (QsumX ys * QsumX ys)).

Definition Qintercept (ys : list Q) : Q :=
  (QsumY ys + - (Qslope ys * QsumX ys)) / Qn ys.

(** The text of a usage whose total is zero, from the sign of the part
    [q] that is divided by it. *)
Definition zero_total_text (q : Q) : string :=
  match (q ?= 0)%Q with
  | Eq => "NaN%"
  | Gt => "Infinity%"
  | Lt => "-Infinity%"
  end.

(** A number is a percentage when it lies between 0 and 100. *)
Definition is_percentage (x : number) : bool :=
  leb (Fin 0) x && leb x (Fin 100).

(** [v] is [u] clamped to the interval from 0 to 100. *)
Definition clamped (u v : Q) : Prop :=
  0 <= v <= 100 /\ (u < 0 -> v == 0) /\ (100 < u -> v == 100)
  /\ (0 <= u <= 100 -> v == u).

(** The closed form of the least-squares line, for a given arithmetic:
    the slope is [(n Sxy - Sx Sy) / (n Sxx - Sx Sx)] and the intercept
    [(Sy - slope Sx) / n], where the sums run over the values [y] and
    their positions [x = 0, 1, ...] and are taken from the left. *)
Record Arithmetic (A : Type) : Type := mkArithmetic {
  a_index : nat -> A;
  a_add : A -> A -> A;
  a_sub : A -> A -> A;
  a_mul : A -> A -> A;
  a_div : A -> A -> A
}.
Arguments a_index {A}.
Arguments a_add {A}.
Arguments a_sub {A}.
Arguments a_mul {A}.
Arguments a_div {A}.

Definition closed_form {A : Type} (ar : Arithmetic A) (ys : list A) : A * A :=
  let n := a_index ar (List.length ys) in
  let xs := map (a_index ar) (seq 0 (List.length ys)) in
  let sumX := fold_left (a_add ar) xs (a_index ar 0) in
  let sumY := fold_left (a_add ar) ys (a_index ar 0) in
  let sumXY :=
    fold_left (fun sum xy => a_add ar sum (a_mul ar (fst xy) (snd xy)))
              (combine xs ys) (a_index ar 0) in
  let sumXX := fold_left (fun sum x => a_add ar sum (a_mul ar x x)) xs (a_index ar 0) in
  let slope :=
    a_div ar (a_sub ar (a_mul ar n sumXY) (a_mul ar sumX sumY))
             (a_sub ar (a_mul ar n sumXX) (a_mul ar sumX sumX)) in
  (slope, a_div ar (a_sub ar sumY (a_mul ar slope sumX)) n).

(** The arithmetic of the rationals, and that of the doubles. *)
Definition rationals : Arithmetic Q := mkArithmetic Q position Qplus Qminus Qmult Qdiv.

Definition doubles : Arithmetic number := mkArithmetic number of_nat radd rsub rmul rdiv.

End Reference.

(** ** Sample data *)

Module Samples.

Import AlertManager.

(** A data point with the given time and CPU usage, on a machine whose
    other readings are ordinary. *)
Definition cpu_point (t usage : Z) : MonitoringDataPoint :=
  mkPoint (of_Z t) (of_Z usage) (Fin 4) (Fin 16) (Fin 8) (Fin 8) (Fin 50)
          [mkDisk "/" (Fin 100) (Fin 40) (Fin 40)] (Fin 3600) [Fin 1; Fin 1; Fin 1].

Definition cpu_tick (t usage : Z) : Tick := (of_Z t, cpu_point t usage).

(** A manager with the predefined rules, as the test program builds
    it. *)
Definition default_manager : State :=
  fold_left (fun this rule => addRule rule this) defaultAlertRules constructor.

(** A rule that always throws, a rule on the CPU usage registered after
    it, and a state in which the alert of the first one is firing. *)
Definition probe_rule : AlertRule :=
  mkRule "probe" ERROR (fun _ => Throw "sensor failure") (fun _ => Normal "probe").

Definition probe_state : State :=
  mkState [("probe", mkAlert "probe" ERROR "probe" (Fin 1) false None (cpu_point 1 50))]
          [probe_rule;
           mkRule "high-cpu" WARNING
             (fun data => Normal (gtb (cpu_usage data) (Fin 80)))
             (fun data => Normal "high")]
          [].

End Samples.

(** ** dynamic-monitoring.ts: the queries of DynamicMonitor *)

Module MonitorQueries.

Import DynamicMonitor.

(** [array.slice(start)] for an integer [start]: a negative one counts
    from the end. *)
Definition slice_from {A : Type} (start : Z) (l : list A) : list A :=
  let len := Z.of_nat (List.length l) in
  let k := if (start <? 0)%Z then Z.max (len + start) 0 else Z.min start len in
  skipn (Z.to_nat k) l.

(** [getHistory(count)]; the optional [count] is an integer, and 0 is
    as falsy as a missing one. *)
Definition getHistoryCount (count : option Z) (s : State) : list MonitoringDataPoint :=
  match count with
  | Some c =>
      if (c =? 0)%Z then history (fst s) else slice_from (- c)%Z (history (fst s))
  | None => history (fst s)
  end.

(** [getLatest]; [None] stands for [null]. *)
Definition getLatest (s : State) : option MonitoringDataPoint :=
  if (0 <? List.length (history (fst s)))%nat
  then nth_error (history (fst s)) (List.length (history (fst s)) - 1)
  else None.

End MonitorQueries.

(** ** dynamic-monitoring.ts: TrendAnalyzer.analyzeMonitoringTrend *)

Module TrendReport.

Import TrendAnalyzer.

(** One entry of the report; the entries of an empty window have no
    [current]. *)
Record Metric : Type := mkMetric {
  metric_trend : trend;
  metric_average : number;
  metric_current : option number
}.

Record Report : Type := mkReport {
  report_cpu : Metric;
  report_memory : Metric;
  report_disk : Metric
}.

(** [Math.max(...xs)]: minus infinity for no argument, NaN as soon as
    one argument is NaN. *)
Definition math_max (xs : list number) : number := fold_left max xs NInf.

(** [values[values.length - 1] || 0]: a missing value, 0 and NaN are
    falsy. *)
Definition last_or_zero (values : list number) : number :=
  match nth_error values (List.length values - 1) with
  | Some (Fin q) => if Qeq_bool q 0 then Fin 0 else Fin q
  | Some NaN => Fin 0
  | Some x => x
  | None => Fin 0
  end.

Definition metric (values : list number) : Metric :=
  mkMetric (calculateTrend values) (calculateAverage values)
           (Some (last_or_zero values)).

(** [analyzeMonitoringTrend(history, minutes)]; [now] is the value of
    [Date.now()] (the default of [minutes] is 10). *)
Definition analyzeMonitoringTrend (now : number) (history : list MonitoringDataPoint)
    (minutes : number) : Report :=
  let cutoff := sub now (mul (mul minutes (Fin 60)) (Fin 1000)) in
  let recentData := filter (fun point => gtb (timestamp point) cutoff) history in
  if (List.length recentData =? 0)%nat then
    mkReport (mkMetric stable (Fin 0) None) (mkMetric stable (Fin 0) None)
             (mkMetric stable (Fin 0) None)
  else
    let cpuValues := map cpu_usage recentData in
    let memoryValues := map memory_usage recentData in
    let diskValues :=
      map (fun point => math_max (map disk_usage (disk point))) recentData in
    mkReport (metric cpuValues) (metric memoryValues) (metric diskValues).

End TrendReport.

(** ** dynamic-monitoring.ts: OptimizedHistoryManager *)

Module OptimizedHistoryManager.

(** [Math.round]: the nearest integer, the larger one on a tie. *)
Definition math_round (x : number) : number :=
  match x with
  | Fin q => Fin (inject_Z (Qfloor (q + (1 # 2))))
  | _ => x
  end.

Definition compressDataPoint (dataPoint : MonitoringDataPoint) : MonitoringDataPoint :=
  mkPoint (timestamp dataPoint)
          (math_round (cpu_usage dataPoint)) (cpu_cores dataPoint)
          (memory_total dataPoint) (memory_used dataPoint) (memory_free dataPoint)
          (math_round (memory_usage dataPoint))
          (map (fun disk => mkDisk (mounted disk) (disk_total disk) (disk_used disk)
                                   (math_round (disk_usage disk)))
               (disk dataPoint))
          (system_uptime dataPoint) (system_loadAverage dataPoint).

(** The fields of the class; [compressionRatio] is 10 in every
    instance. *)
Record Fields : Type := mkManager {
  shortTermHistory : list MonitoringDataPoint;
  longTermHistory : list MonitoringDataPoint;
  compressionRatio : nat
}.

Definition constructor : Fields := mkManager [] [] 10.

(** [longTermHistory.length % compressionRatio === 0]; the remainder by
    zero is NaN, which is not 0. *)
Definition shouldCompress (this : Fields) (dataPoint : MonitoringDataPoint) : bool :=
  if (compressionRatio this =? 0)%nat then false
  else (List.length (longTermHistory this) mod compressionRatio this =? 0)%nat.

Definition addDataPoint (dataPoint : MonitoringDataPoint) (this : Fields) : Fields :=
  let pushed := shortTermHistory this ++ [dataPoint] in
  let this :=
    if (100 <? List.length pushed)%nat then
      match pushed with
      | oldData :: rest =>
          let this := mkManager rest (longTermHistory this) (compressionRatio this) in
          if shouldCompress this oldData
          then mkManager rest (longTermHistory this ++ [compressDataPoint oldData])
                         (compressionRatio this)
          else this
      | [] => mkManager pushed (longTermHistory this) (compressionRatio this)
      end
    else mkManager pushed (longTermHistory this) (compressionRatio this) in
  if (1000 <? List.length (longTermHistory this))%nat
  then mkManager (shortTermHistory this) (tl (longTermHistory this))
                 (compressionRatio this)
  else this.

(** [getRecentHistory(minutes)]; [now] is the value of [Date.now()]. *)
Definition getRecentHistory (now minutes : number) (this : Fields)
  : list MonitoringDataPoint :=
  let cutoff := sub now (mul (mul minutes (Fin 60)) (Fin 1000)) in
  filter (fun point => gtb (timestamp point) cutoff) (shortTermHistory this).

Definition getAllHistory (this : Fields) : list MonitoringDataPoint :=
  longTermHistory this ++ shortTermHistory this.

(** [addDataPoint] for each point of a sequence, in order. *)
Definition add_all (points : list MonitoringDataPoint) (this : Fields) : Fields :=
  fold_left (fun this dataPoint => addDataPoint dataPoint this) points this.

End OptimizedHistoryManager.

(** ** Rounding to two decimals *)

Module Rounding.

Import JsString.

(** The integer whose digits [toFixed(2)] prints for a finite number:
    its absolute value in hundredths, rounded to the nearest integer,
    the larger one on a tie. *)
Definition hundredths (q : Q) : Z := Qfloor (Qabs q * 100 + (1 # 2)).

(** The number that [toFixed(2)] prints. *)
Definition round2 (q : Q) : Q :=
  match q ?= 0 with
  | Lt => - (inject_Z (hundredths q) / 100)
  | _ => inject_Z (hundredths q) / 100
  end.

(** [two_digits] prints a number below 100 as two digits that read back
    as the number. *)
Definition two_digits_ok (k : nat) : bool :=
  (String.length (two_digits (Z.of_nat k)) =? 2)%nat
  && all_chars is_digit (two_digits (Z.of_nat k))
  && (digits_value (two_digits (Z.of_nat k)) =? Z.of_nat k)%Z.

End Rounding.

(** * Properties *)

(** ** Numbers *)

Section NumberFacts.

Lemma ltb_Fin (a b : Q) : ltb (Fin a) (Fin b) = true <-> a < b.
Proof.
  unfold ltb. rewrite Qlt_alt.
  destruct (a ?= b); split; congruence.
Qed.

Lemma ltb_Fin_false (a b : Q) : ltb (Fin a) (Fin b) = false <-> b <= a.
Proof.
  rewrite <- Bool.not_true_iff_false, ltb_Fin. split.
  - apply Qnot_lt_le.
  - apply Qle_not_lt.
Qed.

Lemma gtb_Fin (a b : Q) : gtb (Fin a) (Fin b) = true <-> b < a.
Proof. apply ltb_Fin. Qed.

Lemma leb_Fin (a b : Q) : leb (Fin a) (Fin b) = true <-> a <= b.
Proof.
  unfold leb. rewrite Qle_alt.
  destruct (a ?= b); split; congruence.
Qed.

Lemma div_Fin (a b : Q) : ~ b == 0 -> div (Fin a) (Fin b) = Fin (a / b).
Proof.
  intros Hb. unfold div.
  destruct (b ?= 0) eqn:E; try reflexivity.
  apply Qeq_alt in E. contradiction.
Qed.

Lemma div_Fin_zero (a b : Q) :
  b == 0 ->
  div (Fin a) (Fin b)
  = match a ?= 0 with Gt => PInf | Lt => NInf | Eq => NaN end.
Proof.
  intros Hb. unfold div. apply Qeq_alt in Hb. now rewrite Hb.
Qed.

Lemma of_nat_pos (n : nat) : (0 < n)%nat -> 0 < inject_Z (Z.of_nat n).
Proof.
  intros H. change 0 with (inject_Z 0). rewrite <- Zlt_Qlt. lia.
Qed.

Lemma of_nat_nonzero (n : nat) : (0 < n)%nat -> ~ inject_Z (Z.of_nat n) == 0.
Proof.
  intros H E. apply of_nat_pos in H. rewrite E in H. now apply Qlt_irrefl in H.
Qed.

Lemma gtb_of_nat (a b : nat) : gtb (of_nat a) (of_nat b) = true <-> (b < a)%nat.
Proof.
  unfold of_nat, of_Z. rewrite gtb_Fin, <- Zlt_Qlt. lia.
Qed.

End NumberFacts.

(** ** Rounding to the nearest double *)

Section DoubleFacts.

Lemma pow2_pos (e : Z) : 0 < pow2 e.
Proof. apply Qpower_0_lt. reflexivity. Qed.

Lemma pow2_add (a b : Z) : pow2 (a + b) == pow2 a * pow2 b.
Proof. apply Qpower_plus. discriminate. Qed.

Lemma pow2_succ (a : Z) : pow2 (a + 1) == 2 * pow2 a.
Proof. rewrite pow2_add. change (pow2 1) with 2. ring. Qed.

Lemma pow2_le (a b : Z) : (a <= b)%Z -> pow2 a <= pow2 b.
Proof. intros H. apply Qpower_le_compat_l; [exact H | discriminate]. Qed.

Lemma pow2_Z (n : Z) : (0 <= n)%Z -> pow2 n == inject_Z (2 ^ n).
Proof. intros H. symmetry. apply (Zpower_Qpower 2 n H). Qed.

Lemma log2_bounds (n : Z) :
  (0 < n)%Z -> pow2 (Z.log2 n) <= inject_Z n /\ inject_Z n < 2 * pow2 (Z.log2 n).
Proof.
  intros H. destruct (Z.log2_spec n H) as [L U].
  pose proof (Z.log2_nonneg n) as N.
  rewrite (pow2_Z _ N). split.
  - rewrite <- Zle_Qle. exact L.
  - setoid_replace (2 * inject_Z (2 ^ Z.log2 n)) with (inject_Z (2 ^ Z.succ (Z.log2 n))).
    + rewrite <- Zlt_Qlt. exact U.
    + rewrite Z.pow_succ_r by exact N. rewrite inject_Z_mult. reflexivity.
Qed.

(** The exponent of a positive rational is the one of its binade. *)
Lemma exponent_spec (x : Q) :
  0 < x -> pow2 (exponent x) <= x /\ x < pow2 (exponent x + 1).
Proof.
  intros Hx. destruct x as [n d].
  assert (Hn : (0 < n)%Z).
  { unfold Qlt in Hx. simpl in Hx. lia. }
  unfold exponent. cbn [Qnum Qden].
  set (a := Z.log2 n). set (b := Z.log2 (Zpos d)). set (c := (a - b)%Z).
  destruct (log2_bounds n Hn) as [An Au]. fold a in An, Au.
  destruct (log2_bounds (Zpos d) eq_refl) as [Bd Bu]. fold b in Bd, Bu.
  pose proof (pow2_pos a) as Apos. pose proof (pow2_pos b) as Bpos.
  pose proof (pow2_pos c) as Cpos.
  assert (Hc : pow2 c * pow2 b == pow2 a).
  { rewrite <- pow2_add. unfold c. replace (a - b + b)%Z with a by lia. reflexivity. }
  assert (Hx' : (n # d) * inject_Z (Zpos d) == inject_Z n).
  { rewrite (Qmake_Qdiv n d). field. discriminate. }
  assert (Dpos : 0 < inject_Z (Zpos d)) by reflexivity.
  set (x := n # d) in *. set (D := inject_Z (Zpos d)) in *. set (N := inject_Z n) in *.
  assert (Up : x < 2 * pow2 c).
  { apply Qnot_le_lt. intros F.
    assert (2 * pow2 c * pow2 b <= x * D).
    { apply Qle_trans with (2 * pow2 c * D).
      - apply Qmult_le_l; [nra | exact Bd].
      - apply Qmult_le_r; [exact Dpos | exact F]. }
    nra. }
  assert (Low : pow2 c < 2 * x).
  { apply Qnot_le_lt. intros F.
    assert (2 * x * D <= pow2 c * (2 * pow2 b)).
    { apply Qle_trans with (pow2 c * D).
      - apply Qmult_le_r; [exact Dpos | exact F].
      - apply Qmult_le_l; [exact Cpos | apply Qlt_le_weak; exact Bu]. }
    nra. }
  destruct (Qle_bool (pow2 c) x) eqn:E.
  - apply Qle_bool_iff in E. split; [exact E |]. rewrite pow2_succ. exact Up.
  - assert (F : x < pow2 c).
    { apply Qnot_le_lt. intros G. apply Qle_bool_iff in G. congruence. }
    replace (c - 1 + 1)%Z with c by lia. split; [| exact F].
    assert (S : pow2 c == 2 * pow2 (c - 1)).
    { rewrite <- pow2_succ. replace (c - 1 + 1)%Z with c by lia. reflexivity. }
    nra.
Qed.

Lemma exponent_mono (x y : Q) : 0 < x -> x <= y -> (exponent x <= exponent y)%Z.
Proof.
  intros Hx Hxy.
  destruct (exponent_spec x Hx) as [Lx _].
  destruct (exponent_spec y (Qlt_le_trans _ _ _ Hx Hxy)) as [_ Uy].
  destruct (Z_le_gt_dec (exponent x) (exponent y)) as [H | H]; [exact H | exfalso].
  assert (P : pow2 (exponent y + 1) <= pow2 (exponent x)) by (apply pow2_le; lia).
  lra.
Qed.

Lemma nearest_even_mono (m m' : Q) : m <= m' -> (nearest_even m <= nearest_even m')%Z.
Proof.
  intros H. unfold nearest_even.
  pose proof (Qfloor_resp_le _ _ H) as F.
  destruct (Z.eq_dec (Qfloor m) (Qfloor m')) as [E | E].
  - rewrite <- E.
    destruct (Qcompare (m - inject_Z (Qfloor m)) (1 # 2)) eqn:C;
      destruct (Qcompare (m' - inject_Z (Qfloor m)) (1 # 2)) eqn:C';
      first [apply Qeq_alt in C | apply Qlt_alt in C | apply Qgt_alt in C];
      first [apply Qeq_alt in C' | apply Qlt_alt in C' | apply Qgt_alt in C'];
      try lia; try (exfalso; lra);
      destruct (Z.even (Qfloor m)); lia.
  - assert (G : (Qfloor m + 1 <= Qfloor m')%Z) by lia.
    clear E F H.
    destruct (Qcompare (m - inject_Z (Qfloor m)) (1 # 2));
      destruct (Qcompare (m' - inject_Z (Qfloor m')) (1 # 2));
      try destruct (Z.even (Qfloor m)); try destruct (Z.even (Qfloor m')); lia.
Qed.

Lemma nearest_even_Z (z : Z) : nearest_even (inject_Z z) = z.
Proof.
  unfold nearest_even. rewrite Qfloor_Z.
  assert (C : Qcompare (inject_Z z - inject_Z z) (1 # 2) = Lt).
  { rewrite <- Qlt_alt. lra. }
  rewrite C. reflexivity.
Qed.

Lemma nearest_nonneg (x : Q) : 0 < x -> 0 <= nearest x.
Proof.
  intros H. unfold nearest.
  set (ulp := pow2 _). pose proof (pow2_pos (Z.max (exponent x) (-1022) - 52)) as U.
  fold ulp in U.
  assert (M : 0 <= x / ulp).
  { apply Qle_shift_div_l; [exact U | lra]. }
  pose proof (nearest_even_mono _ _ M) as N.
  change 0 with (inject_Z 0) in N at 1. rewrite nearest_even_Z in N.
  assert (0 <= inject_Z (nearest_even (x / ulp))).
  { change 0 with (inject_Z 0). rewrite <- Zle_Qle. exact N. }
  nra.
Qed.

(** Rounding is monotone: within a binade it rounds the multiples of
    one unit, and the bounds of a binade are doubles. *)
Lemma nearest_mono (x y : Q) : 0 < x -> x <= y -> nearest x <= nearest y.
Proof.
  intros Hx Hxy. assert (Hy : 0 < y) by lra.
  pose proof (exponent_mono x y Hx Hxy) as E.
  unfold nearest.
  set (ex := Z.max (exponent x) (-1022)). set (ey := Z.max (exponent y) (-1022)).
  assert (Exy : (ex <= ey)%Z) by (unfold ex, ey; lia).
  pose proof (pow2_pos (ex - 52)) as Ux. pose proof (pow2_pos (ey - 52)) as Uy.
  destruct (Z.eq_dec ex ey) as [Q | Q].
  - rewrite <- Q.
    assert (M : x / pow2 (ex - 52) <= y / pow2 (ex - 52)).
    { apply Qle_shift_div_l; [exact Ux |].
      setoid_replace (x / pow2 (ex - 52) * pow2 (ex - 52)) with x by (field; lra).
      exact Hxy. }
    pose proof (nearest_even_mono _ _ M) as N. rewrite Zle_Qle in N.
    apply Qmult_le_r; [exact Ux | exact N].
  - assert (Lt : (ex + 1 <= ey)%Z) by lia.
    assert (Ey : ey = exponent y) by (unfold ex, ey in *; lia).
    destruct (exponent_spec x Hx) as [_ Xu].
    destruct (exponent_spec y Hy) as [Yl _]. rewrite <- Ey in Yl.
    assert (Xu' : x <= pow2 (ex + 1)).
    { apply Qle_trans with (pow2 (exponent x + 1)); [lra |].
      apply pow2_le. unfold ex. lia. }
    assert (S53 : forall e, pow2 (e + 1) == inject_Z (2 ^ 53) * pow2 (e - 52)).
    { intros e. rewrite <- (pow2_Z 53) by lia. rewrite <- pow2_add.
      replace (53 + (e - 52))%Z with (e + 1)%Z by lia. reflexivity. }
    assert (S52 : forall e, pow2 e == inject_Z (2 ^ 52) * pow2 (e - 52)).
    { intros e. rewrite <- (pow2_Z 52) by lia. rewrite <- pow2_add.
      replace (52 + (e - 52))%Z with e by lia. reflexivity. }
    assert (A : inject_Z (nearest_even (x / pow2 (ex - 52))) * pow2 (ex - 52)
                <= pow2 (ex + 1)).
    { rewrite (S53 ex). apply Qmult_le_r; [exact Ux |].
      rewrite <- Zle_Qle. rewrite <- (nearest_even_Z (2 ^ 53)).
      apply nearest_even_mono.
      apply Qle_shift_div_r; [exact Ux |]. rewrite <- (S53 ex). exact Xu'. }
    assert (B : pow2 ey
                <= inject_Z (nearest_even (y / pow2 (ey - 52))) * pow2 (ey - 52)).
    { rewrite (S52 ey) at 1. apply Qmult_le_r; [exact Uy |].
      rewrite <- Zle_Qle. rewrite <- (nearest_even_Z (2 ^ 52)) at 1.
      apply nearest_even_mono.
      apply Qle_shift_div_l; [exact Uy |]. rewrite <- (S52 ey). exact Yl. }
    pose proof (pow2_le _ _ Lt). lra.
Qed.

(** The integer nearest to a rational is at most a half away. *)
Lemma nearest_even_close (m : Q) : Qabs (inject_Z (nearest_even m) - m) <= 1 # 2.
Proof.
  unfold nearest_even.
  pose proof (Qfloor_le m) as L. pose proof (Qlt_floor m) as U.
  rewrite inject_Z_plus in U. change (inject_Z 1) with 1 in U.
  apply Qabs_Qle_condition.
  destruct (Qcompare (m - inject_Z (Qfloor m)) (1 # 2)) eqn:C;
    first [apply Qeq_alt in C | apply Qlt_alt in C | apply Qgt_alt in C].
  - destruct (Z.even (Qfloor m)).
    + split; lra.
    + rewrite inject_Z_plus. change (inject_Z 1) with 1. split; lra.
  - split; lra.
  - rewrite inject_Z_plus. change (inject_Z 1) with 1. split; lra.
Qed.

Lemma exponent_le (x : Q) (k : Z) : 0 < x -> x <= pow2 k -> (exponent x <= k)%Z.
Proof.
  intros Hx Hk. destruct (exponent_spec x Hx) as [L _].
  apply (Qpower_le_compat_l_inv 2); [|reflexivity].
  fold (pow2 (exponent x)) (pow2 k). lra.
Qed.

(** Up to [2 ^ k], rounding moves a value by [2 ^ (k - 53)] at most. *)
Lemma nearest_close (x : Q) (k : Z) :
  0 < x -> x <= pow2 k -> (-1022 <= k)%Z -> Qabs (nearest x - x) <= pow2 (k - 53).
Proof.
  intros Hx Hk Hmin. pose proof (exponent_le x k Hx Hk) as He.
  unfold nearest. set (e := Z.max (exponent x) (-1022)).
  assert (Ee : (e <= k)%Z) by (unfold e; lia).
  pose proof (pow2_pos (e - 52)) as U. set (ulp := pow2 (e - 52)) in *.
  pose proof (nearest_even_close (x / ulp)) as C.
  set (N := inject_Z (nearest_even (x / ulp))) in *.
  assert (E : N * ulp - x == (N - x / ulp) * ulp) by (field; lra).
  rewrite E, Qabs_Qmult.
  assert (Ua : Qabs ulp == ulp) by (apply Qabs_pos; lra).
  rewrite Ua.
  assert (H2 : pow2 (e - 52) == 2 * pow2 (e - 53)).
  { rewrite <- pow2_succ. replace (e - 53 + 1)%Z with (e - 52)%Z by lia. reflexivity. }
  fold ulp in H2.
  pose proof (pow2_le (e - 53) (k - 53) ltac:(lia)) as M.
  pose proof (pow2_pos (e - 53)) as P.
  apply Qle_trans with ((1 # 2) * ulp).
  - apply Qmult_le_compat_r; [exact C | lra].
  - lra.
Qed.

(** A value between 0 and a double [hi <= 2 ^ k] rounds to a double
    between 0 and [hi], at most [2 ^ (k - 53)] away from it. *)
Lemma round64_between (x hi : Q) (k : Z) :
  0 <= x -> x <= hi -> round64 hi = Fin hi -> hi <= pow2 k -> (-1022 <= k)%Z ->
  exists r, round64 x = Fin r /\ 0 <= r <= hi /\ Qabs (r - x) <= pow2 (k - 53).
Proof.
  intros H0 Hhi E Hk Hmin. unfold round64 in *.
  destruct (x ?= 0) eqn:Cx.
  - apply Qeq_alt in Cx. exists 0. split; [reflexivity|]. split; [lra|].
    assert (Z : 0 - x == 0) by lra. rewrite Z.
    apply Qlt_le_weak, pow2_pos.
  - apply Qlt_alt in Cx. lra.
  - apply Qgt_alt in Cx.
    assert (Ch : (hi ?= 0) = Gt) by (apply Qgt_alt; lra).
    rewrite Ch in E.
    destruct (Qle_bool (pow2 1024) (nearest hi)) eqn:Bh; [discriminate E |].
    assert (E' : Qred (nearest hi) = hi) by congruence.
    assert (Eh : nearest hi == hi).
    { rewrite <- (Qred_correct (nearest hi)), E'. reflexivity. }
    pose proof (nearest_mono x hi Cx Hhi) as M.
    pose proof (nearest_nonneg x Cx) as N.
    pose proof (nearest_close x k Cx ltac:(lra) Hmin) as C.
    destruct (Qle_bool (pow2 1024) (nearest x)) eqn:Bx.
    + apply Qle_bool_iff in Bx.
      assert (F : Qle_bool (pow2 1024) (nearest hi) = true)
        by (apply Qle_bool_iff; lra).
      congruence.
    + exists (Qred (nearest x)). split; [reflexivity |].
      rewrite Qred_correct. split; [lra | exact C].
Qed.

Lemma round64_zero (x : Q) : x == 0 -> round64 x = Fin 0.
Proof. intros H. unfold round64. apply Qeq_alt in H. now rewrite H. Qed.

Lemma add_NaN_r (x : number) : add x NaN = NaN.
Proof. now destruct x. Qed.

Lemma mul_NaN_r (x : number) : mul x NaN = NaN.
Proof. now destruct x. Qed.

Lemma radd_NaN_r (x : number) : radd x NaN = NaN.
Proof. unfold radd. now rewrite add_NaN_r. Qed.

Lemma rsub_NaN_r (x : number) : rsub x NaN = NaN.
Proof. unfold rsub, sub. cbn [neg]. now rewrite add_NaN_r. Qed.

Lemma rmul_NaN_r (x : number) : rmul x NaN = NaN.
Proof. unfold rmul. now rewrite mul_NaN_r. Qed.

End DoubleFacts.

(** ** TrendAnalyzer *)

Section TrendClaims.

Import TrendAnalyzer Reference.

(** C10. A window of fewer than two values, empty or a singleton, has
    the trend [stable]: [calculateTrend] returns before it computes any
    mean, whatever the values are. *)
Theorem calculateTrend_cold_start (values : list number) :
  (List.length values < 2)%nat -> calculateTrend values = stable.
Proof.
  intros H. unfold calculateTrend.
  apply Nat.ltb_lt in H. now rewrite H.
Qed.

Lemma calculateTrend_cold_start_witness :
  (List.length [Fin 42] < 2)%nat /\ calculateTrend [Fin 42] = stable
  /\ calculateTrend [] = stable /\ calculateTrend [NaN] = stable.
Proof.
  split; [simpl; lia|].
  split; [apply (calculateTrend_cold_start [Fin 42]); simpl; lia|].
  split; [apply (calculateTrend_cold_start []); simpl; lia|].
  apply (calculateTrend_cold_start [NaN]); simpl; lia.
Defined.

(** C6, as stated, fails.  On [10, 100, 10] the code puts the middle
    value into the second part and answers [up], where the halves of the
    claim give [stable]; on [0, 0] the first mean is 0, the code has no
    absolute threshold and answers [down], where the claim gives
    [stable]. *)
Lemma calculateTrend_not_trend_spec :
  calculateTrend (map Fin [10; 100; 10]) = up
  /\ trend_spec [10; 100; 10] = stable
  /\ calculateTrend (map Fin [0; 0]) = down
  /\ trend_spec [0; 0] = stable
  /\ ~ (forall qs, calculateTrend (map Fin qs) = trend_spec qs).
Proof.
  split; [vm_compute; reflexivity|]. split; [vm_compute; reflexivity|].
  split; [vm_compute; reflexivity|]. split; [vm_compute; reflexivity|].
  intros H. specialize (H [0; 0]). vm_compute in H. discriminate H.
Qed.

(** The double that the literal [0.05] denotes. *)
Lemma literal_005 : literal 0.05 = Fin (3602879701896397 # 72057594037927936).
Proof. vm_compute. reflexivity. Qed.

(** A threshold of zero is never above an absolute value. *)
Lemma ltb_abs_zero (x : number) (z : Q) : z == 0 -> ltb (abs x) (Fin z) = false.
Proof.
  intros Hz. destruct x as [q| | |]; try reflexivity.
  cbn [abs]. apply ltb_Fin_false. rewrite Hz. apply Qabs_nonneg.
Qed.

(** [calculateAverage] is the mean in double arithmetic. *)
Lemma calculateAverage_mean (values : list number) :
  calculateAverage values = mean_doubles values.
Proof.
  unfold calculateAverage, mean_doubles, total.
  destruct values as [|v values]; [reflexivity|].
  change (List.length (v :: values) =? 0)%nat with false. cbv iota.
  f_equal. generalize (Fin 0). generalize (v :: values).
  induction l as [|x l IH]; intros start; [reflexivity|apply IH].
Qed.

(** C6, amended.  For a window of two or more values the first part is
    its first [floor (n / 2)] values and the second part all the others
    (the middle value of a window of odd length included).  With
    [firstMean] and [secondMean] their means, the difference
    [secondMean - firstMean] and the threshold [firstMean * 0.05], all
    computed in double arithmetic, the trend is [stable] exactly when
    the absolute value of the difference is below the threshold, and
    otherwise [up] when the difference is above 0 and [down] when not.
    No other threshold is used when the first mean is 0, so that the
    trend is never [stable] then.  The three sample windows give
    [stable], [up] and [down]. *)
Theorem calculateTrend_halves (values : list number) :
  (2 <= List.length values)%nat ->
  let firstMean := mean_doubles (firstn (List.length values / 2) values) in
  let secondMean := mean_doubles (skipn (List.length values / 2) values) in
  let difference := rsub secondMean firstMean in
  let threshold := rmul firstMean (literal 0.05) in
  (calculateTrend values = stable <-> ltb (abs difference) threshold = true)
  /\ (calculateTrend values = up
      <-> ltb (abs difference) threshold = false /\ gtb difference (Fin 0) = true)
  /\ (calculateTrend values = down
      <-> ltb (abs difference) threshold = false /\ gtb difference (Fin 0) = false)
  /\ (forall q, firstMean = Fin q -> q == 0 -> calculateTrend values <> stable)
  /\ calculateTrend (map Fin [50; 50; 50; 50]) = stable
  /\ calculateTrend (map Fin [10; 10; 90; 90]) = up
  /\ calculateTrend (map Fin [90; 90; 10; 10]) = down.
Proof.
  intros Hlen firstMean secondMean difference threshold.
  assert (E : calculateTrend values
              = if ltb (abs difference) threshold then stable
                else if gtb difference (Fin 0) then up else down).
  { unfold calculateTrend, half.
    destruct (List.length values <? 2)%nat eqn:L; [apply Nat.ltb_lt in L; lia|].
    cbv zeta. rewrite !calculateAverage_mean. reflexivity. }
  assert (Hcases :
            (calculateTrend values = stable <-> ltb (abs difference) threshold = true)
            /\ (calculateTrend values = up
                <-> ltb (abs difference) threshold = false
                    /\ gtb difference (Fin 0) = true)
            /\ (calculateTrend values = down
                <-> ltb (abs difference) threshold = false
                    /\ gtb difference (Fin 0) = false)).
  { rewrite E.
    destruct (ltb (abs difference) threshold); destruct (gtb difference (Fin 0));
      repeat split; intros; try discriminate; try reflexivity; intuition discriminate. }
  destruct Hcases as (Hst & Hup & Hdown).
  split; [exact Hst|]. split; [exact Hup|]. split; [exact Hdown|].
  split.
  - intros q Hq Hz Heq. apply Hst in Heq.
    unfold threshold in Heq. rewrite Hq, literal_005 in Heq.
    unfold rmul in Heq. cbn [mul rounded] in Heq.
    rewrite round64_zero in Heq by (rewrite Hz; ring).
    rewrite ltb_abs_zero in Heq by reflexivity. discriminate Heq.
  - split; [vm_compute; reflexivity|]. split; vm_compute; reflexivity.
Qed.

Lemma calculateTrend_halves_witness :
  (2 <= List.length [Fin 10; Fin 100; Fin 10])%nat
  /\ calculateTrend (map Fin [10; 100; 10]) = up.
Proof.
  split; [simpl; lia|].
  assert (H2 : (2 <= List.length [Fin 10; Fin 100; Fin 10])%nat) by (simpl; lia).
  destruct (calculateTrend_halves (map Fin [10; 100; 10]) H2) as (_ & Hup & _).
  apply Hup. split; vm_compute; reflexivity.
Defined.

(** The rounding decides at the boundary.  On [6, 7, 7, 7, 7, 7] the
    exact difference of the means, a third, equals 5% of the exact first
    mean; the doubles computed are 0.33333333333333304 and
    0.33333333333333337, and the answer is [stable].  On five copies of
    -0.7 the two means computed differ in the last bit, and the answer
    is [up]. *)
Example calculateTrend_at_the_boundary :
  calculateTrend (map Fin [6; 7; 7; 7; 7; 7]) = stable
  /\ Qmean [7; 7; 7] - Qmean [6; 7; 7] == 0.05 * Qmean [6; 7; 7]
  /\ calculateTrend (map literal [-0.7; -0.7; -0.7; -0.7; -0.7]) = up
  /\ calculateAverage (map literal [0.1; 0.1; 0.1]) = literal 0.10000000000000002.
Proof. repeat split; vm_compute; reflexivity. Qed.

End TrendClaims.

(** ** Linear regression in exact arithmetic *)

Section Regression.

Import TrendAnalyzer Reference.

Lemma position_S (i : nat) : position (S i) == position i + 1.
Proof.
  unfold position. rewrite Nat2Z.inj_succ, <- Z.add_1_r, inject_Z_plus. reflexivity.
Qed.

Lemma points_cons (first : nat) (y : Q) (ys : list Q) :
  points first (y :: ys) = (position first, y) :: points (S first) ys.
Proof. reflexivity. Qed.

(** A left fold that adds one term per element is the start value plus
    the sum of the terms. *)
Lemma fold_left_psum (f : Q -> Q -> Q) (ps : list (Q * Q)) (a : Q) :
  fold_left (fun sum xy => sum + f (fst xy) (snd xy)) ps a == a + psum f ps.
Proof.
  revert a. induction ps as [|p ps IH]; intros a; simpl.
  - ring.
  - rewrite IH. ring.
Qed.

Lemma fold_left_xs (g : Q -> Q) (first : nat) (ys : list Q) (a : Q) :
  fold_left (fun sum xi => sum + g xi)
            (map position (seq first (List.length ys))) a
  == a + psum (fun x _ => g x) (points first ys).
Proof.
  revert first a. induction ys as [|y ys IH]; intros first a; simpl.
  - ring.
  - rewrite IH. unfold points. simpl. ring.
Qed.

Lemma fold_left_ys (first : nat) (ys : list Q) (a : Q) :
  fold_left Qplus ys a == a + psum (fun _ y => y) (points first ys).
Proof.
  revert first a. induction ys as [|y ys IH]; intros first a; simpl.
  - ring.
  - rewrite (IH (S first)). unfold points. simpl. ring.
Qed.

Lemma QsumX_psum (ys : list Q) : QsumX ys == psum (fun x _ => x) (points 0 ys).
Proof.
  unfold QsumX, Qpositions.
  rewrite <- (Qplus_0_l (psum _ _)), <- (fold_left_xs (fun x => x)).
  reflexivity.
Qed.

Lemma QsumXX_psum (ys : list Q) : QsumXX ys == psum (fun x _ => x * x) (points 0 ys).
Proof.
  unfold QsumXX, Qpositions.
  rewrite <- (Qplus_0_l (psum _ _)), <- (fold_left_xs (fun x => x * x)).
  reflexivity.
Qed.

Lemma QsumY_psum (ys : list Q) : QsumY ys == psum (fun _ y => y) (points 0 ys).
Proof.
  unfold QsumY. rewrite (fold_left_ys 0). ring.
Qed.

Lemma QsumXY_psum (ys : list Q) : QsumXY ys == psum (fun x y => x * y) (points 0 ys).
Proof.
  unfold QsumXY. rewrite (fold_left_psum (fun x y => x * y)). unfold points, Qpositions. ring.
Qed.

Lemma Qn_psum (first : nat) (ys : list Q) :
  inject_Z (Z.of_nat (List.length ys)) == psum (fun _ _ => 1) (points first ys).
Proof.
  revert first. induction ys as [|y ys IH]; intros first.
  - reflexivity.
  - rewrite points_cons. cbn [psum List.length]. rewrite <- (IH (S first)).
    fold (position (S (List.length ys))). rewrite position_S. unfold position. ring.
Qed.

Lemma sse_psum (first : nat) (ys : list Q) (a b : Q) :
  sse first ys a b
  == psum (fun x y => (y - (a * x + b)) * (y - (a * x + b))) (points first ys).
Proof.
  revert first. induction ys as [|y ys IH]; intros first.
  - reflexivity.
  - rewrite points_cons. cbn [psum sse fst snd]. rewrite IH. reflexivity.
Qed.

(** The squared error of a line [(a, b)] against that of a line
    [(s, t)]: the difference is a sum of squares and two terms that the
    normal equations of [(s, t)] cancel. *)
Lemma psum_error_split (ps : list (Q * Q)) (s t a b : Q) :
  psum (fun x y => (y - (a * x + b)) * (y - (a * x + b))) ps
  == psum (fun x y => (y - (s * x + t)) * (y - (s * x + t))) ps
     + psum (fun x _ => ((s - a) * x + (t - b)) * ((s - a) * x + (t - b))) ps
     + 2 * (s - a) * (psum (fun x y => x * y) ps - s * psum (fun x _ => x * x) ps
                      - t * psum (fun x _ => x) ps)
     + 2 * (t - b) * (psum (fun _ y => y) ps - s * psum (fun x _ => x) ps
                      - t * psum (fun _ _ => 1) ps).
Proof.
  induction ps as [|p ps IH]; cbn [psum].
  - ring.
  - rewrite IH. ring.
Qed.

Lemma psum_squares_nonneg (g : Q -> Q) (ps : list (Q * Q)) :
  0 <= psum (fun x _ => g x * g x) ps.
Proof.
  induction ps as [|p ps IH]; cbn [psum].
  - apply Qle_refl.
  - assert (H : 0 <= g (fst p) * g (fst p)) by nra.
    lra.
Qed.

(** Closed forms of the sums of positions and of their squares. *)
Lemma psum_x_closed (first : nat) (ys : list Q) :
  let n := position (List.length ys) in
  2 * psum (fun x _ => x) (points first ys) == n * (2 * position first + n - 1).
Proof.
  revert first. induction ys as [|y ys IH]; intros first.
  - cbv zeta. change (points first []) with (@nil (Q * Q)).
    change (position (List.length (@nil Q))) with 0. cbn [psum]. ring.
  - rewrite points_cons. cbn [psum fst snd List.length]. cbv zeta in *.
    rewrite position_S. rewrite Qmult_plus_distr_r, (IH (S first)), position_S. ring.
Qed.

Lemma psum_xx_closed (first : nat) (ys : list Q) :
  let n := position (List.length ys) in
  6 * psum (fun x _ => x * x) (points first ys)
  == n * (6 * position first * position first + 6 * position first * (n - 1) + (n - 1) * (2 * n - 1)).
Proof.
  revert first. induction ys as [|y ys IH]; intros first.
  - cbv zeta. change (points first []) with (@nil (Q * Q)).
    change (position (List.length (@nil Q))) with 0. cbn [psum]. ring.
  - rewrite points_cons. cbn [psum fst snd List.length]. cbv zeta in *.
    rewrite position_S. rewrite Qmult_plus_distr_r, (IH (S first)), position_S. ring.
Qed.

(** The denominator of the slope is positive from two values on. *)
Lemma denominator_pos (ys : list Q) :
  (2 <= List.length ys)%nat ->
  0 < Qn ys * QsumXX ys + - (QsumX ys * QsumX ys).
Proof.
  intros Hlen.
  pose proof (psum_x_closed 0 ys) as Hx. pose proof (psum_xx_closed 0 ys) as Hxx.
  cbv zeta in Hx, Hxx. rewrite <- QsumX_psum in Hx. rewrite <- QsumXX_psum in Hxx.
  fold (Qn ys) in Hx, Hxx. change (position 0) with 0 in Hx, Hxx.
  assert (Hn : 2 <= Qn ys).
  { unfold Qn, position. change 2 with (inject_Z 2). rewrite <- Zle_Qle. lia. }
  set (n := Qn ys) in *. set (sx := QsumX ys) in *. set (sxx := QsumXX ys) in *.
  assert (E : 12 * (n * sxx + - (sx * sx)) == 2 * n * (6 * sxx) - 3 * ((2 * sx) * (2 * sx)))
    by ring.
  assert (P : 0 < 12 * (n * sxx + - (sx * sx))).
  { rewrite E, Hx, Hxx.
    assert (F : 2 * n * (n * (6 * 0 * 0 + 6 * 0 * (n - 1) + (n - 1) * (2 * n - 1)))
                - 3 * (n * (2 * 0 + n - 1) * (n * (2 * 0 + n - 1)))
                == (n * n) * ((n - 1) * (n + 1))) by ring.
    rewrite F. apply Qmult_lt_0_compat; apply Qmult_lt_0_compat; lra. }
  lra.
Qed.

(** The normal equations of the slope and the intercept. *)
Lemma normal_equations (ys : list Q) :
  (2 <= List.length ys)%nat ->
  QsumXY ys - Qslope ys * QsumXX ys - Qintercept ys * QsumX ys == 0
  /\ QsumY ys - Qslope ys * QsumX ys - Qintercept ys * Qn ys == 0.
Proof.
  intros Hlen. pose proof (denominator_pos ys Hlen) as HD.
  assert (Hn : 0 < Qn ys) by (apply of_nat_pos; lia).
  unfold Qintercept, Qslope.
  set (n := Qn ys) in *. set (sx := QsumX ys) in *. set (sxx := QsumXX ys) in *.
  set (sy := QsumY ys). set (sxy := QsumXY ys).
  assert (HD' : ~ n * sxx + - (sx * sx) == 0) by lra.
  assert (Hn' : ~ n == 0) by lra.
  split; field; split; assumption.
Qed.

(** The line of this slope and intercept has the least squared error of
    all lines. *)
Lemma Qline_least_squares (ys : list Q) :
  (2 <= List.length ys)%nat -> least_squares ys (Qslope ys) (Qintercept ys).
Proof.
  intros Hlen a b. destruct (normal_equations ys Hlen) as [N1 N2].
  rewrite !sse_psum.
  rewrite (psum_error_split (points 0 ys) (Qslope ys) (Qintercept ys) a b).
  rewrite <- QsumXY_psum, <- QsumXX_psum, <- QsumX_psum, <- QsumY_psum.
  rewrite <- (Qn_psum 0 ys). fold (Qn ys). rewrite N1, N2.
  pose proof (psum_squares_nonneg
                (fun x => (Qslope ys - a) * x + (Qintercept ys - b)) (points 0 ys)) as P.
  cbv beta in P. lra.
Qed.

End Regression.

Section Forecast.

Import TrendAnalyzer Reference.

Lemma clamp_Fin (u : Q) : exists v, clamp (Fin u) = Fin v /\ clamped u v.
Proof.
  unfold clamp, min, clamped.
  destruct (ltb (Fin u) (Fin 100)) eqn:E1.
  - apply ltb_Fin in E1. unfold max.
    destruct (ltb (Fin 0) (Fin u)) eqn:E2.
    + apply ltb_Fin in E2. exists u. repeat split; try lra; intros; lra.
    + apply ltb_Fin_false in E2. exists 0. repeat split; try lra; intros; lra.
  - apply ltb_Fin_false in E1. unfold max.
    assert (E2 : ltb (Fin 0) (Fin 100) = true) by reflexivity.
    rewrite E2. exists 100. repeat split; try lra; intros; lra.
Qed.

(** What passes the clamp is NaN or lies between 0 and 100. *)
Lemma clamp_cases (x : number) : clamp x = NaN \/ is_percentage (clamp x) = true.
Proof.
  destruct x as [q| | |].
  - right. destruct (clamp_Fin q) as (v & -> & (Hv & _)).
    unfold is_percentage. apply andb_true_intro. split; now apply leb_Fin.
  - right. reflexivity.
  - right. reflexivity.
  - left. reflexivity.
Qed.

Lemma nth_error_steps (periods : Z) (k : nat) :
  (k < Z.to_nat periods)%nat ->
  nth_error (steps periods) k = Some (Z.of_nat (1 + k)).
Proof.
  intros Hk. unfold steps.
  rewrite nth_error_map, nth_error_seq.
  apply Nat.ltb_lt in Hk. rewrite Hk. reflexivity.
Qed.

(** The slope and the intercept of [predictTrend] are the closed form
    of the least-squares line, in double arithmetic. *)
Lemma predictTrend_closed_form (values : list number) (periods : Z) :
  (3 <= List.length values)%nat ->
  predictTrend values periods
  = map (fun i =>
           clamp (radd (rmul (fst (closed_form doubles values))
                             (rsub (radd (of_nat (List.length values)) (of_Z i)) (Fin 1)))
                       (snd (closed_form doubles values))))
        (steps periods).
Proof.
  intros Hlen. unfold predictTrend.
  destruct (List.length values <? 3)%nat eqn:E; [apply Nat.ltb_lt in E; lia|].
  unfold closed_form, slope_of, intercept_of.
  cbv zeta. cbn [fst snd doubles a_index a_add a_sub a_mul a_div].
  reflexivity.
Qed.

(** In exact arithmetic the closed form is the slope and intercept of
    the regression section. *)
Lemma closed_form_rationals (ys : list Q) :
  closed_form rationals ys = (Qslope ys, Qintercept ys).
Proof. reflexivity. Qed.




(** On the doubles 0, 0.1 and 0.2 the predictions are 0.3 and
    0.39999999999999997: the line is followed up to the rounding. *)
Example predictTrend_rounds :
  predictTrend (map literal [0; 0.1; 0.2]) 2 = map literal [0.3; 0.39999999999999997].
Proof. vm_compute. reflexivity. Qed.

End Forecast.

(** ** system-info.ts *)

Section Sampling.

Import SystemInfo Reference Rounding.

Lemma hundredths_nonneg (q : Q) : (0 <= hundredths q)%Z.
Proof.
  unfold hundredths. change 0%Z with (Qfloor 0).
  apply Qfloor_resp_le. pose proof (Qabs_nonneg q). lra.
Qed.

(** A number between 0 and 100 is printed as one. *)
Lemma round2_percent (u : Q) : 0 <= u <= 100 -> 0 <= round2 u <= 100.
Proof.
  intros [H0 H1]. unfold round2.
  assert (Hn : (0 <= hundredths u <= 10000)%Z).
  { split; [apply hundredths_nonneg|]. unfold hundredths.
    assert (A : Qabs u == u) by (apply Qabs_pos; exact H0).
    rewrite A. change 10000%Z with (Qfloor (10000 + (1 # 2))).
    apply Qfloor_resp_le. lra. }
  assert (L : 0 <= inject_Z (hundredths u)).
  { change 0 with (inject_Z 0). rewrite <- Zle_Qle. lia. }
  assert (U : inject_Z (hundredths u) <= 10000).
  { change 10000 with (inject_Z 10000). rewrite <- Zle_Qle. lia. }
  destruct (u ?= 0) eqn:E.
  - split; [apply Qle_shift_div_l|apply Qle_shift_div_r]; lra.
  - apply Qlt_alt in E. lra.
  - split; [apply Qle_shift_div_l|apply Qle_shift_div_r]; lra.
Qed.

Lemma round64_1 : round64 1 = Fin 1.
Proof. vm_compute. reflexivity. Qed.

Lemma round64_100 : round64 100 = Fin 100.
Proof. vm_compute. reflexivity. Qed.

Lemma share_bounds (part total : Q) :
  0 <= part -> part <= total -> 0 < total -> 0 <= part / total <= 1.
Proof.
  intros H0 H1 Ht. split.
  - apply Qle_shift_div_l; lra.
  - apply Qle_shift_div_r; lra.
Qed.

(** The usage of a part in a total that holds it: the quotient rounds
    to a double between 0 and 1, and its product by 100 to a double
    between 0 and 100, at most [2 ^ -45] away from the exact usage. *)
Lemma ratio100_range (part total : Q) :
  0 <= part -> part <= total -> 0 < total ->
  exists r, ratio100 (Fin part) (Fin total) = Fin r
            /\ Qabs (r - part / total * 100) <= pow2 (-45)
            /\ 0 <= r <= 100 /\ 0 <= round2 r <= 100.
Proof.
  intros H0 H1 Ht. unfold ratio100, rdiv.
  rewrite div_Fin by lra. cbn [rounded].
  destruct (share_bounds part total H0 H1 Ht) as [L U].
  destruct (round64_between (part / total) 1 0 L U round64_1
                            ltac:(apply Qle_refl) ltac:(lia))
    as (r1 & -> & [L1 U1] & C1).
  unfold rmul. cbn [mul rounded].
  assert (P7 : 100 <= pow2 7) by (vm_compute; discriminate).
  destruct (round64_between (r1 * 100) 100 7 ltac:(lra) ltac:(lra) round64_100 P7
                            ltac:(lia))
    as (r & -> & Hr & C).
  exists r. split; [reflexivity|]. split; [|split; [exact Hr|apply round2_percent, Hr]].
  assert (B : 100 * pow2 (0 - 53) + pow2 (7 - 53) <= pow2 (-45))
    by (vm_compute; discriminate).
  apply Qabs_Qle_condition in C1. apply Qabs_Qle_condition in C.
  apply Qabs_Qle_condition.
  set (q := part / total) in *. set (a := pow2 (0 - 53)) in *.
  set (b := pow2 (7 - 53)) in *. set (c := pow2 (-45)) in *.
  split; lra.
Qed.

Lemma percentage_zero_total (part total : Q) :
  total == 0 -> percentage (Fin part) (Fin total) = zero_total_text part.
Proof.
  intros H. unfold percentage, ratio100, rdiv, zero_total_text.
  rewrite (div_Fin_zero _ _ H). now destruct (part ?= 0).
Qed.

Lemma getDynamicCpuUsage_Fin (cpus0 cpus1 : list CpuTimes) (du ds di : Q) :
  delta (getCpuTimes cpus0) (getCpuTimes cpus1) = mkTimes (Fin du) (Fin ds) (Fin di) ->
  getDynamicCpuUsage cpus0 cpus1
  = mkCpuInfo (List.length cpus1)
              (percentage (Fin ds) (Fin (du + ds + di)))
              (percentage (Fin du) (Fin (du + ds + di)))
              (percentage (Fin di) (Fin (du + ds + di))).
Proof.
  intros E. unfold getDynamicCpuUsage. cbv zeta. rewrite E. reflexivity.
Qed.

(** C3, as stated, fails.  Two equal samples have the deltas 0, 0 and 0:
    the three usages are then ["NaN%"], not ["0.00%"]; and a machine
    reported with no memory at all has the memory usage ["NaN%"]. *)
Lemma zero_total_not_zero_percent :
  let cpus := [mkTimes (Fin 7) (Fin 3) (Fin 90)] in
  delta_total (delta (getCpuTimes cpus) (getCpuTimes cpus)) = Fin 0
  /\ getDynamicCpuUsage cpus cpus = mkCpuInfo 1 "NaN%" "NaN%" "NaN%"
  /\ used (getDynamicCpuUsage cpus cpus) <> "0.00%"
  /\ m_usage (getMemInfo (Fin 0) (Fin 0)) = "NaN%"
  /\ m_usage (getMemInfo (Fin 0) (Fin 0)) <> "0.00%".
Proof.
  cbv zeta. repeat split; try (vm_compute; reflexivity); vm_compute; discriminate.
Qed.

(** C3, amended.  When the three deltas of two samples sum to zero, no
    usage of [getDynamicCpuUsage] is a number: each one is ["NaN%"] when
    its own delta is zero, ["Infinity%"] when it is positive and
    ["-Infinity%"] when it is negative.  In the same way the usage of
    [getMemInfo] for a total of zero is ["NaN%"] when the used memory is
    zero and an infinity otherwise. *)
Theorem zero_total_usage (cpus0 cpus1 : list CpuTimes) (du ds di : Q) :
  delta (getCpuTimes cpus0) (getCpuTimes cpus1) = mkTimes (Fin du) (Fin ds) (Fin di) ->
  du + ds + di == 0 ->
  getDynamicCpuUsage cpus0 cpus1
  = mkCpuInfo (List.length cpus1)
              (zero_total_text ds) (zero_total_text du) (zero_total_text di)
  /\ forall totalMemory freeMemory : Q,
       totalMemory == 0 ->
       m_usage (getMemInfo (Fin totalMemory) (Fin freeMemory))
       = zero_total_text (totalMemory + - freeMemory).
Proof.
  intros E Hz. split.
  - rewrite (getDynamicCpuUsage_Fin _ _ _ _ _ E).
    now rewrite !(percentage_zero_total _ _ Hz).
  - intros totalMemory freeMemory Ht. unfold getMemInfo. cbn [m_usage sub add neg].
    apply percentage_zero_total, Ht.
Qed.

Lemma zero_total_usage_witness :
  let cpus0 := [mkTimes (Fin 10) (Fin 4) (Fin 6)] in
  let cpus1 := [mkTimes (Fin 12) (Fin 1) (Fin 7)] in
  getDynamicCpuUsage cpus0 cpus1 = mkCpuInfo 1 "-Infinity%" "Infinity%" "Infinity%".
Proof.
  cbv zeta.
  refine (proj1 (zero_total_usage
                   [mkTimes (Fin 10) (Fin 4) (Fin 6)]
                   [mkTimes (Fin 12) (Fin 1) (Fin 7)]
                   (12 + - (10)) (1 + - (4)) (7 + - (6)) _ _)).
  - reflexivity.
  - reflexivity.
Defined.

(** C4, as stated, fails.  When the user counter goes back from 10 to 5
    while the idle counter grows by 10, the usages returned are
    ["-100.00%"] and ["200.00%"]: nothing clamps them. *)
Lemma usage_not_clamped :
  let cpus0 := [mkTimes (Fin 10) (Fin 0) (Fin 0)] in
  let cpus1 := [mkTimes (Fin 5) (Fin 0) (Fin 10)] in
  getDynamicCpuUsage cpus0 cpus1 = mkCpuInfo 1 "0.00%" "-100.00%" "200.00%"
  /\ is_percentage
       (ratio100 (t_user (delta (getCpuTimes cpus0) (getCpuTimes cpus1)))
                 (delta_total (delta (getCpuTimes cpus0) (getCpuTimes cpus1))))
     = false
  /\ is_percentage
       (ratio100 (t_idle (delta (getCpuTimes cpus0) (getCpuTimes cpus1)))
                 (delta_total (delta (getCpuTimes cpus0) (getCpuTimes cpus1))))
     = false.
Proof.
  cbv zeta. repeat split; vm_compute; reflexivity.
Qed.

(** C4, amended.  When no counter went back between the two samples and
    one of them advanced, each usage of [getDynamicCpuUsage] is the
    text, with two decimals and a percent sign, of the double that
    [delta / total * 100] gives, the quotient and the product being
    rounded.  This double is at most [2 ^ -45] away from the exact
    share; it lies between 0 and 100, and so does the number the text
    shows.  The value is not clamped. *)
Theorem usage_in_range (cpus0 cpus1 : list CpuTimes) (du ds di : Q) :
  delta (getCpuTimes cpus0) (getCpuTimes cpus1) = mkTimes (Fin du) (Fin ds) (Fin di) ->
  0 <= du -> 0 <= ds -> 0 <= di -> 0 < du + ds + di ->
  let total := du + ds + di in
  exists s u i : Q,
    getDynamicCpuUsage cpus0 cpus1
    = mkCpuInfo (List.length cpus1)
                (toFixed2 (Fin s) ++ "%")%string
                (toFixed2 (Fin u) ++ "%")%string
                (toFixed2 (Fin i) ++ "%")%string
    /\ (ratio100 (Fin ds) (Fin total) = Fin s
        /\ Qabs (s - ds / total * 100) <= pow2 (-45)
        /\ 0 <= s <= 100 /\ 0 <= round2 s <= 100)
    /\ (ratio100 (Fin du) (Fin total) = Fin u
        /\ Qabs (u - du / total * 100) <= pow2 (-45)
        /\ 0 <= u <= 100 /\ 0 <= round2 u <= 100)
    /\ (ratio100 (Fin di) (Fin total) = Fin i
        /\ Qabs (i - di / total * 100) <= pow2 (-45)
        /\ 0 <= i <= 100 /\ 0 <= round2 i <= 100).
Proof.
  intros E Hu Hs Hi Ht total.
  destruct (ratio100_range ds total) as (s & Es & Rs); try (unfold total; lra).
  destruct (ratio100_range du total) as (u & Eu & Ru); try (unfold total; lra).
  destruct (ratio100_range di total) as (i & Ei & Ri); try (unfold total; lra).
  exists s, u, i.
  split; [|split; [exact (conj Es Rs)|split; [exact (conj Eu Ru)|exact (conj Ei Ri)]]].
  rewrite (getDynamicCpuUsage_Fin _ _ _ _ _ E). fold total. unfold percentage.
  rewrite Es, Eu, Ei. reflexivity.
Qed.

Lemma usage_in_range_witness :
  let cpus0 := [mkTimes (Fin 10) (Fin 0) (Fin 0); mkTimes (Fin 1) (Fin 1) (Fin 1)] in
  let cpus1 := [mkTimes (Fin 15) (Fin 2) (Fin 10); mkTimes (Fin 3) (Fin 3) (Fin 3)] in
  delta (getCpuTimes cpus0) (getCpuTimes cpus1) = mkTimes (Fin 7) (Fin 4) (Fin 12)
  /\ 0 <= 7 /\ 0 <= 4 /\ 0 <= 12 /\ 0 < 7 + 4 + 12
  /\ exists s u i : Q,
       getDynamicCpuUsage cpus0 cpus1
       = mkCpuInfo 2 (toFixed2 (Fin s) ++ "%")%string
                     (toFixed2 (Fin u) ++ "%")%string
                     (toFixed2 (Fin i) ++ "%")%string
       /\ 0 <= s <= 100 /\ 0 <= u <= 100 /\ 0 <= i <= 100.
Proof.
  cbv zeta.
  assert (E : delta (getCpuTimes [mkTimes (Fin 10) (Fin 0) (Fin 0);
                                  mkTimes (Fin 1) (Fin 1) (Fin 1)])
                    (getCpuTimes [mkTimes (Fin 15) (Fin 2) (Fin 10);
                                  mkTimes (Fin 3) (Fin 3) (Fin 3)])
              = mkTimes (Fin 7) (Fin 4) (Fin 12)) by (vm_compute; reflexivity).
  assert (Hu : 0 <= 7) by lra. assert (Hs : 0 <= 4) by lra.
  assert (Hi : 0 <= 12) by lra. assert (Ht : 0 < 7 + 4 + 12) by lra.
  split; [exact E|]. split; [exact Hu|]. split; [exact Hs|].
  split; [exact Hi|]. split; [exact Ht|].
  destruct (usage_in_range _ _ 7 4 12 E Hu Hs Hi Ht)
    as (s & u & i & G & (_ & _ & Rs & _) & (_ & _ & Ru & _) & (_ & _ & Ri & _)).
  exists s, u, i.
  split; [exact G|]. split; [exact Rs|]. split; [exact Ru|exact Ri].
Defined.

(** The deltas 23, 0 and 137: the user share is computed as
    14.374999999999998 and printed as 14.37, where the exact share is
    14.375. *)
Example usage_is_rounded_twice :
  getDynamicCpuUsage [mkTimes (Fin 0) (Fin 0) (Fin 0)] [mkTimes (Fin 23) (Fin 0) (Fin 137)]
  = mkCpuInfo 1 "0.00%" "14.37%" "85.63%"
  /\ ratio100 (Fin 23) (Fin 160) = literal 14.374999999999998
  /\ 23 / 160 * 100 == 14.375.
Proof. repeat split; vm_compute; reflexivity. Qed.

End Sampling.

(** ** DynamicMonitor: the history *)

Section History.

Import DynamicMonitor.

Lemma push_all_snoc (points : list MonitoringDataPoint) (p : MonitoringDataPoint)
    (this : Fields) :
  push_all (points ++ [p]) this = addDataPoint p (push_all points this).
Proof. unfold push_all. now rewrite fold_left_app. Qed.

Lemma push_all_config (points : list MonitoringDataPoint) (this : Fields) :
  config (push_all points this) = config this.
Proof.
  induction points as [|p points IH] using rev_ind; [reflexivity|].
  rewrite push_all_snoc. exact IH.
Qed.

Lemma tl_skipn_snoc {A : Type} (j : nat) (l : list A) (p : A) :
  (j <= List.length l)%nat -> tl (skipn j l ++ [p]) = skipn (S j) (l ++ [p]).
Proof.
  revert j. induction l as [|x l IH]; intros j Hj.
  - assert (j = 0)%nat by (simpl in Hj; lia). subst j. reflexivity.
  - destruct j as [|j]; [reflexivity|].
    simpl in Hj. cbn [skipn app]. apply IH. lia.
Qed.

(** After any pushes into an empty history of size [N], the history is
    the last [N] points pushed, or all of them when they are fewer. *)
Lemma push_all_history (N : nat) (points : list MonitoringDataPoint) (this : Fields) :
  historySize (config this) = of_nat N ->
  history this = [] ->
  history (push_all points this) = skipn (List.length points - N) points.
Proof.
  intros HN Hempty.
  induction points as [|p points IH] using rev_ind.
  - simpl. exact Hempty.
  - rewrite push_all_snoc. unfold addDataPoint. cbn [history].
    rewrite push_all_config, HN, IH, length_app, length_skipn, length_app.
    cbn [List.length].
    destruct (gtb (of_nat (List.length points - (List.length points - N) + 1)) (of_nat N))
      eqn:E.
    + apply gtb_of_nat in E.
      rewrite tl_skipn_snoc by lia. f_equal. lia.
    + apply Bool.not_true_iff_false in E. rewrite gtb_of_nat in E.
      replace (List.length points - N)%nat with 0%nat by lia.
      replace (List.length points + 1 - N)%nat with 0%nat by lia.
      reflexivity.
Qed.

Lemma history_op_config (o : HistoryOp) (this : Fields) :
  config (history_op o this) = config this.
Proof. now destruct o. Qed.

(** Pushes and resets never make a history longer than its size. *)
Lemma history_ops_bounded (N : nat) (ops : list HistoryOp) (this : Fields) :
  historySize (config this) = of_nat N ->
  (List.length (history this) <= N)%nat ->
  (List.length (history (history_ops ops this)) <= N)%nat.
Proof.
  unfold history_ops. revert this.
  induction ops as [|o ops IH]; intros this HN Hlen; [exact Hlen|].
  cbn [fold_left]. apply IH.
  - now rewrite history_op_config.
  - destruct o as [p|]; cbn [history_op resetHistory history]; [|simpl; lia].
    unfold addDataPoint. cbn [history]. rewrite HN, length_app. cbn [List.length].
    destruct (gtb (of_nat (List.length (history this) + 1)) (of_nat N)) eqn:E.
    + destruct (history this) as [|x h]; [simpl; lia|].
      cbn [app tl]. rewrite length_app. cbn [List.length] in *. lia.
    + apply Bool.not_true_iff_false in E. rewrite gtb_of_nat in E.
      rewrite length_app. cbn [List.length]. lia.
Qed.




End History.

(** ** DynamicMonitor: start, stop and updateConfig *)

Section Lifecycle.

Import DynamicMonitor.

Lemma start_running (s : State) :
  isRunning (fst s) = true -> start s = (fst s, print WarnAlreadyRunning (snd s)).
Proof. destruct s as [this rt]. simpl. now intros ->. Qed.

Lemma stop_stopped (s : State) :
  isRunning (fst s) = false -> stop s = (fst s, print WarnNotRunning (snd s)).
Proof. destruct s as [this rt]. simpl. now intros ->. Qed.

Lemma isRunning_start (s : State) : isRunning (fst (start s)) = true.
Proof.
  destruct s as [this rt]. unfold start.
  destruct (isRunning this) eqn:E; [exact E|reflexivity].
Qed.

Lemma isRunning_stop (s : State) : isRunning (fst (stop s)) = false.
Proof.
  destruct s as [this rt]. unfold stop.
  destruct (isRunning this) eqn:E; [reflexivity|exact E].
Qed.

Lemma clearInterval_only (handle : nat) (period : number) (rt : Runtime) :
  timers rt = [(handle, period)] -> timers (clearInterval handle rt) = [].
Proof.
  intros E. unfold clearInterval. cbn [timers]. rewrite E. cbn [filter fst].
  now rewrite Nat.eqb_refl.
Qed.

(** [timers_agree] looks at the handle, the flag and the timers only. *)
Lemma timers_agree_same (s s' : State) :
  intervalId (fst s') = intervalId (fst s) ->
  isRunning (fst s') = isRunning (fst s) ->
  timers (snd s') = timers (snd s) ->
  timers_agree s -> timers_agree s'.
Proof. unfold timers_agree. intros -> -> ->. trivial. Qed.

Lemma timers_agree_start (s : State) : timers_agree s -> timers_agree (start s).
Proof.
  intros H. destruct (isRunning (fst s)) eqn:E.
  - rewrite (start_running s E). now apply (timers_agree_same s).
  - destruct s as [this rt]. unfold timers_agree, start in *. cbn [fst snd] in *.
    rewrite E. cbn [fst snd intervalId isRunning].
    destruct (intervalId this) as [h|]; destruct H as [H1 H2]; [congruence|].
    split; [reflexivity|]. exists (interval (config this)).
    cbn [timers print setInterval emit call_collectData]. now rewrite H2.
Qed.

Lemma timers_agree_stop (s : State) : timers_agree s -> timers_agree (stop s).
Proof.
  intros H. destruct (isRunning (fst s)) eqn:E.
  - destruct s as [this rt]. unfold timers_agree, stop in *. cbn [fst snd] in *.
    rewrite E. cbn [negb fst snd intervalId isRunning].
    destruct (intervalId this) as [h|]; destruct H as [H1 H2]; [|congruence].
    destruct H2 as [period H2]. split; [reflexivity|].
    cbn [timers print emit]. exact (clearInterval_only h period rt H2).
  - rewrite (stop_stopped s E). now apply (timers_agree_same s).
Qed.

Lemma timers_agree_updateConfig (newConfig : PartialConfig) (s : State) :
  timers_agree s -> timers_agree (updateConfig newConfig s).
Proof.
  intros H. unfold updateConfig. cbv zeta.
  destruct (isRunning (fst s)).
  - match goal with
    | |- timers_agree (fst ?x, emit _ (snd ?x)) =>
        apply (timers_agree_same x); try reflexivity
    end.
    apply timers_agree_start.
    apply (timers_agree_same (stop s)); try reflexivity.
    now apply timers_agree_stop.
  - apply (timers_agree_same s); try reflexivity. exact H.
Qed.

(** [collectData] touches neither the handle, nor the flag, nor the
    timers. *)
Lemma timers_agree_collectData (t : number) (r : completion DataPoints.Readings)
    (s : State) :
  timers_agree s -> timers_agree (collectData t r s).
Proof.
  destruct s as [this rt].
  apply timers_agree_same; now destruct r.
Qed.

Lemma timers_agree_run_op (o : Op) (s : State) :
  timers_agree s -> timers_agree (run_op o s).
Proof.
  intros H. destruct o; cbn [run_op].
  - now apply timers_agree_start.
  - now apply timers_agree_stop.
  - now apply timers_agree_updateConfig.
  - apply (timers_agree_same s); try reflexivity. exact H.
  - apply (timers_agree_same s); try assumption;
      destruct s as [this rt]; unfold fire;
      now destruct (existsb _ (timers rt)).
  - destruct (0 <? pending (snd s))%nat; [|exact H].
    now apply timers_agree_collectData.
Qed.

Lemma timers_agree_reachable (s : State) : reachable s -> timers_agree s.
Proof.
  intros (cfg & ops & ->). unfold run.
  induction ops as [|o ops IH] using rev_ind.
  - split; reflexivity.
  - rewrite fold_left_app. cbn [fold_left]. now apply timers_agree_run_op.
Qed.

(** Without a listener, [start_listened] is [start]. *)
Lemma start_listened_nothing (s : State) : start_listened (fun s => s) s = start s.
Proof. destruct s as [this rt]. unfold start_listened, start. now destruct (isRunning this). Qed.





Lemma config_start (s : State) : config (fst (start s)) = config (fst s).
Proof. destruct s as [this rt]. unfold start. now destruct (isRunning this). Qed.

Lemma config_stop (s : State) : config (fst (stop s)) = config (fst s).
Proof. destruct s as [this rt]. unfold stop. now destruct (isRunning this). Qed.

Lemma history_start (s : State) : history (fst (start s)) = history (fst s).
Proof. destruct s as [this rt]. unfold start. now destruct (isRunning this). Qed.

Lemma history_stop (s : State) : history (fst (stop s)) = history (fst s).
Proof. destruct s as [this rt]. unfold stop. now destruct (isRunning this). Qed.


End Lifecycle.

(** ** AlertManager *)

Section Alerts.

Import AlertManager.

Lemma map_get_set_same (key : string) (a : Alert) (m : AlertMap) :
  map_get key (map_set key a m) = Some a.
Proof.
  induction m as [|[k b] m IH]; simpl.
  - now rewrite String.eqb_refl.
  - destruct (String.eqb k key) eqn:E; simpl; rewrite E; [reflexivity|exact IH].
Qed.

Lemma map_get_set_other (key k : string) (a : Alert) (m : AlertMap) :
  k <> key -> map_get key (map_set k a m) = map_get key m.
Proof.
  intros Hne. induction m as [|[k' b] m IH]; simpl.
  - apply String.eqb_neq in Hne. now rewrite Hne.
  - destruct (String.eqb k' k) eqn:E; simpl.
    + apply String.eqb_eq in E. subst k'.
      apply String.eqb_neq in Hne. now rewrite Hne.
    + destruct (String.eqb k' key); [reflexivity|exact IH].
Qed.

Lemma well_keyed_set (key : string) (a : Alert) (m : AlertMap) :
  id a = key -> well_keyed m -> well_keyed (map_set key a m).
Proof.
  intros Ha Hm k b Hget.
  destruct (string_dec key k) as [->|Hne].
  - rewrite map_get_set_same in Hget. congruence.
  - rewrite map_get_set_other in Hget by exact Hne. now apply Hm.
Qed.

Lemma edges_app (key : string) (l l' : list Event) :
  edges key (l ++ l') = edges key l ++ edges key l'.
Proof. apply flat_map_app. Qed.

(** The test of [checkAlerts] for raising: no record, or a resolved
    one. *)
Lemma raise_test (key : string) (this : State) :
  negb (map_has key (alerts this))
  || match map_get key (alerts this) with
     | Some a => resolved a
     | None => false
     end
  = negb (firing key this).
Proof.
  unfold map_has, firing. destruct (map_get key (alerts this)) as [a|]; simpl.
  - now rewrite Bool.negb_involutive.
  - reflexivity.
Qed.

(** A rule whose callbacks return normally: afterwards its alert fires
    exactly when the condition holds, and the one event about it is the
    edge between the two. *)
Lemma checkRule_own (now : number) (d : MonitoringDataPoint) (rule : AlertRule)
    (this : State) (b : bool) (text : string) :
  condition rule d = Normal b ->
  rule_message rule d = Normal text ->
  well_keyed (alerts this) ->
  exists this',
    checkRule now d rule this = (this', None)
    /\ rules this' = rules this
    /\ well_keyed (alerts this')
    /\ firing (rule_id rule) this' = b
    /\ edges (rule_id rule) (emitted this')
       = edges (rule_id rule) (emitted this) ++ edge (firing (rule_id rule) this) b.
Proof.
  intros Hc Hm Hk. unfold checkRule. rewrite Hc. cbv zeta.
  destruct b.
  - rewrite raise_test. destruct (firing (rule_id rule) this) eqn:F; cbn [negb].
    + exists this. repeat split; try assumption. cbn [edge]. now rewrite app_nil_r.
    + rewrite Hm. eexists. split; [reflexivity|]. cbn [rules alerts emitted].
      repeat split.
      * now apply well_keyed_set.
      * unfold firing. cbn [alerts]. now rewrite map_get_set_same.
      * rewrite edges_app. cbn [edges flat_map edge_of id edge].
        now rewrite String.eqb_refl.
  - unfold firing in *. destruct (map_get (rule_id rule) (alerts this)) as [a|] eqn:G.
    + destruct (resolved a) eqn:R; cbn [negb].
      * exists this. repeat split; try assumption.
        -- now rewrite G, R.
        -- cbn [edge]. now rewrite app_nil_r.
      * eexists. split; [reflexivity|]. cbn [rules alerts emitted].
        repeat split.
        -- apply well_keyed_set; [|assumption]. cbn [resolve id]. now apply Hk.
        -- now rewrite map_get_set_same.
        -- rewrite edges_app. cbn [edges flat_map edge_of resolve id edge].
           rewrite (Hk _ _ G). now rewrite String.eqb_refl.
    + exists this. repeat split; try assumption.
      * now rewrite G.
      * cbn [edge]. now rewrite app_nil_r.
Qed.

(** A rule leaves the alerts of the other keys alone, also when it
    throws. *)
Lemma checkRule_other (key : string) (now : number) (d : MonitoringDataPoint)
    (rule : AlertRule) (this this' : State) (thrown : option string) :
  rule_id rule <> key ->
  well_keyed (alerts this) ->
  checkRule now d rule this = (this', thrown) ->
  rules this' = rules this
  /\ well_keyed (alerts this')
  /\ map_get key (alerts this') = map_get key (alerts this)
  /\ edges key (emitted this') = edges key (emitted this).
Proof.
  intros Hne Hk. unfold checkRule.
  assert (Hne' : String.eqb (rule_id rule) key = false) by now apply String.eqb_neq.
  destruct (condition rule d) as [b|error].
  2:{ intros E. injection E as <- _. now repeat split. }
  cbv zeta. destruct b.
  - rewrite raise_test. destruct (firing (rule_id rule) this); cbn [negb].
    + intros E. injection E as <- _. now repeat split.
    + destruct (rule_message rule d) as [text|error].
      2:{ intros E. injection E as <- _. now repeat split. }
      intros E. injection E as <- _. cbn [rules alerts emitted].
      repeat split.
      * now apply well_keyed_set.
      * now apply map_get_set_other.
      * rewrite edges_app. cbn [edges flat_map edge_of id]. rewrite Hne'.
        now rewrite app_nil_r.
  - destruct (map_get (rule_id rule) (alerts this)) as [a|] eqn:G.
    2:{ intros E. injection E as <- _. now repeat split. }
    destruct (resolved a); cbn [negb].
    + intros E. injection E as <- _. now repeat split.
    + intros E. injection E as <- _. cbn [rules alerts emitted].
      repeat split.
      * apply well_keyed_set; [|assumption]. cbn [resolve id]. now apply Hk.
      * now apply map_get_set_other.
      * rewrite edges_app. cbn [edges flat_map edge_of resolve id].
        rewrite (Hk _ _ G), Hne'. now rewrite app_nil_r.
Qed.

Lemma firing_same (key : string) (this this' : State) :
  map_get key (alerts this') = map_get key (alerts this) ->
  firing key this' = firing key this.
Proof. unfold firing. now intros ->. Qed.

(** The rules that do not have the key, all returning normally. *)
Lemma forEach_others (key : string) (now : number) (d : MonitoringDataPoint)
    (todo : list AlertRule) (this : State) :
  ~ In key (map rule_id todo) ->
  Forall (returns_on d) todo ->
  well_keyed (alerts this) ->
  exists this',
    forEach now d todo this = (this', None)
    /\ rules this' = rules this
    /\ well_keyed (alerts this')
    /\ firing key this' = firing key this
    /\ edges key (emitted this') = edges key (emitted this).
Proof.
  revert this. induction todo as [|rule todo IH]; intros this Hnot Hq Hk.
  - exists this. now repeat split.
  - inversion Hq as [|? ? [[b Hb] [text Ht]] Hq']; subst.
    destruct (checkRule_own now d rule this b text Hb Ht Hk)
      as (mid & E & _).
    assert (Hne : rule_id rule <> key) by (intros <-; apply Hnot; now left).
    destruct (checkRule_other key now d rule this mid None Hne Hk E)
      as (R1 & K1 & G1 & E1).
    destruct (IH mid) as (this' & E' & R2 & K2 & F2 & E2); try assumption.
    { intros Hin. apply Hnot. now right. }
    exists this'. cbn [forEach]. rewrite E.
    repeat split; try assumption; try congruence.
    rewrite F2. now apply firing_same.
Qed.

(** One call of [checkAlerts] on rules with distinct keys that return
    normally: for each rule, the events about its alert are the edge
    between its state before and its condition now. *)
Lemma forEach_edge (now : number) (d : MonitoringDataPoint) (r : AlertRule) (b : bool)
    (todo : list AlertRule) (this : State) :
  NoDup (map rule_id todo) ->
  In r todo ->
  Forall (returns_on d) todo ->
  condition r d = Normal b ->
  well_keyed (alerts this) ->
  exists this',
    forEach now d todo this = (this', None)
    /\ rules this' = rules this
    /\ well_keyed (alerts this')
    /\ firing (rule_id r) this' = b
    /\ edges (rule_id r) (emitted this')
       = edges (rule_id r) (emitted this) ++ edge (firing (rule_id r) this) b.
Proof.
  revert this. induction todo as [|rule todo IH]; intros this Hnd Hin Hq Hb Hk.
  - destruct Hin.
  - inversion Hnd as [|? ? Hnotin Hnd']; subst.
    inversion Hq as [|? ? [[b' Hb'] [text Ht]] Hq']; subst.
    destruct (checkRule_own now d rule this b' text Hb' Ht Hk)
      as (mid & E & R1 & K1 & F1 & E1).
    cbn [forEach]. rewrite E.
    destruct Hin as [->|Hin].
    + assert (b' = b) by congruence. subst b'.
      destruct (forEach_others (rule_id r) now d todo mid Hnotin Hq' K1)
        as (this' & E' & R2 & K2 & F2 & E2).
      exists this'. repeat split; try assumption; congruence.
    + assert (Hne : rule_id rule <> rule_id r).
      { intros Heq. apply Hnotin. rewrite Heq. now apply in_map. }
      destruct (checkRule_other (rule_id r) now d rule this mid None Hne Hk E)
        as (_ & _ & G1 & E1').
      destruct (IH mid Hnd' Hin Hq' Hb K1) as (this' & E' & R2 & K2 & F2 & E2).
      exists this'. repeat split; try assumption; try congruence.
      rewrite E2, E1'. f_equal. f_equal. now apply firing_same.
Qed.

End Alerts.

Section AlertClaims.

Import AlertManager Samples.

Lemma quiet_cons (todo : list AlertRule) (tick : Tick) (ticks : list Tick) :
  quiet todo (tick :: ticks) ->
  Forall (returns_on (snd tick)) todo /\ quiet todo ticks.
Proof.
  intros H. split.
  - apply Forall_forall. intros rule Hin. apply (H tick rule); [now left|exact Hin].
  - intros t rule Ht Hin. apply (H t rule); [now right|exact Hin].
Qed.

(** Tick after tick, what is emitted about the alert of a rule is the
    trace of the edges of its condition. *)
Lemma feed_edges (r : AlertRule) (ticks : list Tick) (this : State) :
  NoDup (map rule_id (rules this)) ->
  In r (rules this) ->
  well_keyed (alerts this) ->
  quiet (rules this) ticks ->
  map (fun out => (edges (rule_id r) (fst out), snd out)) (fst (feed ticks this))
  = map (fun e => (e, None))
        (edge_trace (firing (rule_id r) this) (map (holds_on r) ticks)).
Proof.
  revert this. induction ticks as [|[now d] ticks IH]; intros this Hnd Hin Hk Hq.
  - reflexivity.
  - apply quiet_cons in Hq. destruct Hq as [Hd Hq]. cbn [snd] in Hd.
    assert (Hb : exists b, condition r d = Normal b).
    { rewrite Forall_forall in Hd. now destruct (Hd r Hin) as [Hb _]. }
    destruct Hb as [b Hb].
    destruct (forEach_edge now d r b (rules this)
                (mkState (alerts this) (rules this) []) Hnd Hin Hd Hb Hk)
      as (this' & E & R & K & F & Ed).
    cbn [feed]. unfold checkAlerts. cbn [rules]. rewrite E.
    cbn [rules] in R.
    destruct (feed ticks this') as [outs final] eqn:Efeed.
    assert (Hh : holds_on r (now, d) = b) by (unfold holds_on; cbn [snd]; now rewrite Hb).
    cbn [fst map snd edge_trace]. rewrite Hh.
    f_equal.
    + f_equal. rewrite Ed. reflexivity.
    + specialize (IH this'). rewrite Efeed, R, F in IH. cbn [fst] in IH.
      apply IH; try assumption.
Qed.

Lemma last_cons {A : Type} (l : list A) (x d d' : A) :
  last (x :: l) d = last (x :: l) d'.
Proof.
  revert x. induction l as [|y l IH]; intros x; [reflexivity|].
  change (last (y :: l) d = last (y :: l) d'). apply IH.
Qed.

Lemma last_default {A : Type} (l : list A) (b d : A) :
  last l b = last (b :: l) d.
Proof. destruct l as [|x l]; [reflexivity|]. apply (last_cons l x b d). Qed.

(** The trace of a sequence in two parts: the second part starts from
    what the first part leaves. *)
Lemma edge_trace_app (was_firing : bool) (l1 l2 : list bool) :
  edge_trace was_firing (l1 ++ l2)
  = edge_trace was_firing l1 ++ edge_trace (last l1 was_firing) l2.
Proof.
  revert was_firing. induction l1 as [|b l1 IH]; intros was_firing; [reflexivity|].
  cbn [app edge_trace]. rewrite IH. cbn [app].
  now rewrite (last_default l1 b was_firing).
Qed.

(** While the condition keeps its value nothing is emitted. *)
Lemma edge_trace_steady (b : bool) (j : nat) (rest : list bool) :
  edge_trace b (repeat b j ++ rest) = repeat [] j ++ edge_trace b rest.
Proof.
  induction j as [|j IH]; [reflexivity|].
  cbn [repeat app edge_trace]. rewrite IH. now destruct b.
Qed.

Lemma holds_on_all (r : AlertRule) (b : bool) (ticks : list Tick) :
  (forall tick, In tick ticks -> condition r (snd tick) = Normal b) ->
  map (holds_on r) ticks = repeat b (List.length ticks).
Proof.
  induction ticks as [|t ticks IH]; intros H; [reflexivity|].
  cbn [map List.length repeat]. f_equal.
  - unfold holds_on. rewrite (H t); [reflexivity|now left].
  - apply IH. intros tick Hin. apply H. now right.
Qed.



Lemma well_keyed_nil : well_keyed [].
Proof. intros key a H. discriminate H. Qed.


(** The scenario of the usages 70, 75, 85, 90, 78, 60 against the
    threshold 80: raised on the third tick, resolved on the fifth. *)
Example high_cpu_scenario :
  map (fun out => (edges "high-cpu" (fst out), snd out))
      (fst (feed [cpu_tick 1 70; cpu_tick 2 75; cpu_tick 3 85; cpu_tick 4 90;
                  cpu_tick 5 78; cpu_tick 6 60] default_manager))
  = [([], None); ([], None); ([Raise], None); ([], None); ([Resolve], None); ([], None)].
Proof. vm_compute. reflexivity. Qed.

Lemma forEach_app (now : number) (d : MonitoringDataPoint) (l1 l2 : list AlertRule)
    (this : State) :
  forEach now d (l1 ++ l2) this
  = match forEach now d l1 this with
    | (mid, None) => forEach now d l2 mid
    | thrown => thrown
    end.
Proof.
  revert this. induction l1 as [|rule l1 IH]; intros this; cbn [app forEach].
  - reflexivity.
  - destruct (checkRule now d rule this) as [mid [error|]]; [reflexivity|apply IH].
Qed.

(** The rules that do not have the key leave its alert alone, whether
    they throw or not. *)
Lemma forEach_leaves (key : string) (now : number) (d : MonitoringDataPoint)
    (todo : list AlertRule) (this this' : State) (thrown : option string) :
  ~ In key (map rule_id todo) ->
  well_keyed (alerts this) ->
  forEach now d todo this = (this', thrown) ->
  map_get key (alerts this') = map_get key (alerts this)
  /\ edges key (emitted this') = edges key (emitted this).
Proof.
  revert this. induction todo as [|rule todo IH]; intros this Hnot Hk; cbn [forEach].
  - intros E. injection E as <- _. now split.
  - destruct (checkRule now d rule this) as [mid [error|]] eqn:E.
    + intros E'. injection E' as <- _.
      destruct (checkRule_other key now d rule this mid (Some error)) as (_ & _ & G & Ed);
        try assumption.
      * intros Heq. apply Hnot. left. exact Heq.
      * now split.
    + intros E'.
      destruct (checkRule_other key now d rule this mid None) as (_ & K & G & Ed);
        try assumption.
      * intros Heq. apply Hnot. left. exact Heq.
      * destruct (IH mid) as [G' Ed']; try assumption.
        { intros Hin. apply Hnot. now right. }
        split; congruence.
Qed.




End AlertClaims.

(** * Further properties *)

(** ** system-info.ts: the shares of the counters *)

Section Shares.

Import SystemInfo Reference Rounding.

Lemma getCpuInfo_Fin (cpus : list CpuTimes) (u s i : Q) :
  getCpuTimes cpus = mkTimes (Fin u) (Fin s) (Fin i) ->
  getCpuInfo cpus
  = mkCpuInfo (List.length cpus)
              (percentage (Fin s) (Fin (u + s + i)))
              (percentage (Fin u) (Fin (u + s + i)))
              (percentage (Fin i) (Fin (u + s + i))).
Proof. intros E. unfold getCpuInfo. cbv zeta. rewrite E. reflexivity. Qed.

(** X1. When the counters summed over the cores are not negative and
    not all zero, each of the three usages of [getCpuInfo] is the text,
    with two decimals and a percent sign, of the double that
    [part / total * 100] gives for the system, user and idle time, the
    quotient and the product being rounded.  This double is at most
    [2 ^ -45] away from the exact share; it lies between 0 and 100, and
    so does the number the text shows. *)
Theorem getCpuInfo_shares (cpus : list CpuTimes) (u s i : Q) :
  getCpuTimes cpus = mkTimes (Fin u) (Fin s) (Fin i) ->
  0 <= u -> 0 <= s -> 0 <= i -> 0 < u + s + i ->
  let total := u + s + i in
  exists ps pu pi : Q,
    getCpuInfo cpus
    = mkCpuInfo (List.length cpus)
                (toFixed2 (Fin ps) ++ "%")%string
                (toFixed2 (Fin pu) ++ "%")%string
                (toFixed2 (Fin pi) ++ "%")%string
    /\ (ratio100 (Fin s) (Fin total) = Fin ps
        /\ Qabs (ps - s / total * 100) <= pow2 (-45)
        /\ 0 <= ps <= 100 /\ 0 <= round2 ps <= 100)
    /\ (ratio100 (Fin u) (Fin total) = Fin pu
        /\ Qabs (pu - u / total * 100) <= pow2 (-45)
        /\ 0 <= pu <= 100 /\ 0 <= round2 pu <= 100)
    /\ (ratio100 (Fin i) (Fin total) = Fin pi
        /\ Qabs (pi - i / total * 100) <= pow2 (-45)
        /\ 0 <= pi <= 100 /\ 0 <= round2 pi <= 100).
Proof.
  intros E Hu Hs Hi Ht total.
  destruct (ratio100_range s total) as (ps & Es & Rs); try (unfold total; lra).
  destruct (ratio100_range u total) as (pu & Eu & Ru); try (unfold total; lra).
  destruct (ratio100_range i total) as (pi & Ei & Ri); try (unfold total; lra).
  exists ps, pu, pi.
  split; [|split; [exact (conj Es Rs)|split; [exact (conj Eu Ru)|exact (conj Ei Ri)]]].
  rewrite (getCpuInfo_Fin _ _ _ _ E). fold total. unfold percentage.
  rewrite Es, Eu, Ei. reflexivity.
Qed.

Lemma getCpuInfo_shares_witness :
  exists ps pu pi : Q,
    getCpuInfo [mkTimes (Fin 30) (Fin 10) (Fin 60); mkTimes (Fin 20) (Fin 20) (Fin 60)]
    = mkCpuInfo 2 (toFixed2 (Fin ps) ++ "%")%string
                  (toFixed2 (Fin pu) ++ "%")%string
                  (toFixed2 (Fin pi) ++ "%")%string
    /\ 0 <= ps <= 100 /\ 0 <= pu <= 100 /\ 0 <= pi <= 100.
Proof.
  assert (E : getCpuTimes [mkTimes (Fin 30) (Fin 10) (Fin 60);
                           mkTimes (Fin 20) (Fin 20) (Fin 60)]
              = mkTimes (Fin 50) (Fin 30) (Fin 120)) by (vm_compute; reflexivity).
  assert (Hu : 0 <= 50) by lra. assert (Hs : 0 <= 30) by lra.
  assert (Hi : 0 <= 120) by lra. assert (Ht : 0 < 50 + 30 + 120) by lra.
  destruct (getCpuInfo_shares _ 50 30 120 E Hu Hs Hi Ht)
    as (ps & pu & pi & G & (_ & _ & Rs & _) & (_ & _ & Ru & _) & (_ & _ & Ri & _)).
  exists ps, pu, pi.
  split; [exact G|]. split; [exact Rs|]. split; [exact Ru|exact Ri].
Defined.

(** The counters 23, 0 and 137 of one core: the user share is printed
    as 14.37, where the exact share is 14.375. *)
Example getCpuInfo_rounds :
  getCpuInfo [mkTimes (Fin 23) (Fin 0) (Fin 137)] = mkCpuInfo 1 "0.00%" "14.37%" "85.63%".
Proof. vm_compute. reflexivity. Qed.

(** X3. For a machine with some memory, of which the free part is
    neither negative nor more than the total, the usage of [getMemInfo]
    is the text, with two decimals and a percent sign, of the double
    that [used / total * 100] gives, the quotient and the product being
    rounded.  This double is at most [2 ^ -45] away from the exact
    share; it lies between 0 and 100, and so does the number the text
    shows. *)
Theorem getMemInfo_usage (totalMemory freeMemory : Q) :
  0 < totalMemory -> 0 <= freeMemory <= totalMemory ->
  exists usage : Q,
    m_usage (getMemInfo (Fin totalMemory) (Fin freeMemory))
    = (toFixed2 (Fin usage) ++ "%")%string
    /\ ratio100 (Fin (totalMemory + - freeMemory)) (Fin totalMemory) = Fin usage
    /\ Qabs (usage - (totalMemory + - freeMemory) / totalMemory * 100) <= pow2 (-45)
    /\ 0 <= usage <= 100
    /\ 0 <= round2 usage <= 100.
Proof.
  intros Ht Hf.
  destruct (ratio100_range (totalMemory + - freeMemory) totalMemory)
    as (usage & E & R); try lra.
  exists usage. split; [|exact (conj E R)].
  unfold getMemInfo. cbn [m_usage sub add neg]. unfold percentage.
  rewrite E. reflexivity.
Qed.

Lemma getMemInfo_usage_witness :
  exists usage : Q,
    m_usage (getMemInfo (Fin 17179869184) (Fin 4294967296))
    = (toFixed2 (Fin usage) ++ "%")%string
    /\ 0 <= usage <= 100.
Proof.
  assert (Ht : 0 < 17179869184) by lra.
  assert (Hf : 0 <= 4294967296 <= 17179869184) by lra.
  destruct (getMemInfo_usage 17179869184 4294967296 Ht Hf) as (usage & G & _ & _ & R & _).
  exists usage. split; [exact G|exact R].
Defined.

(** A machine with 160 GB of which 137 GB are free: the usage is
    printed as 14.37, where the exact share is 14.375. *)
Example getMemInfo_rounds :
  getMemInfo (Fin (160 * 1073741824)) (Fin (137 * 1073741824))
  = mkMemInfo "160.00 GB" "23.00 GB" "137.00 GB" "14.37%".
Proof. vm_compute. reflexivity. Qed.

End Shares.

(** ** TrendAnalyzer: NaN *)

Section TrendEdges.

Import TrendAnalyzer Reference.

Lemma fold_add_from_NaN (values : list number) :
  fold_left (fun sum value => radd sum value) values NaN = NaN.
Proof. induction values as [|v values IH]; [reflexivity|exact IH]. Qed.

Lemma fold_add_NaN (values : list number) (a : number) :
  In NaN values -> fold_left (fun sum value => radd sum value) values a = NaN.
Proof.
  revert a. induction values as [|v values IH]; intros a Hin; [destruct Hin|].
  cbn [fold_left]. destruct Hin as [->|Hin].
  - rewrite radd_NaN_r. apply fold_add_from_NaN.
  - now apply IH.
Qed.

Lemma calculateAverage_NaN (values : list number) :
  In NaN values -> calculateAverage values = NaN.
Proof.
  intros Hin. unfold calculateAverage.
  destruct values as [|v values]; [destruct Hin|].
  change (List.length (v :: values) =? 0)%nat with false. cbv iota.
  unfold total. now rewrite (fold_add_NaN _ _ Hin).
Qed.

(** X6. A window of two or more values one of which is NaN has the
    trend [down]: the NaN reaches one of the two means, and every
    comparison with it is false. *)
Theorem calculateTrend_NaN (values : list number) :
  (2 <= List.length values)%nat -> In NaN values -> calculateTrend values = down.
Proof.
  intros Hlen Hin. unfold calculateTrend.
  destruct (List.length values <? 2)%nat eqn:E; [apply Nat.ltb_lt in E; lia|].
  rewrite <- (firstn_skipn (half values) values) in Hin.
  apply in_app_or in Hin. cbv zeta. destruct Hin as [Hin|Hin].
  - rewrite (calculateAverage_NaN _ Hin), rsub_NaN_r. reflexivity.
  - rewrite (calculateAverage_NaN (skipn _ _) Hin). reflexivity.
Qed.

Lemma calculateTrend_NaN_witness :
  calculateTrend [Fin 10; Fin 20; NaN; Fin 90] = down.
Proof.
  apply calculateTrend_NaN.
  - simpl. lia.
  - simpl. tauto.
Defined.

(** X7. Whatever the values and the number of periods, every number
    [predictTrend] returns is NaN or lies between 0 and 100: only NaN
    passes the clamp. *)
Theorem predictTrend_range (values : list number) (periods : Z) (v : number) :
  In v (predictTrend values periods) -> v = NaN \/ is_percentage v = true.
Proof.
  unfold predictTrend.
  destruct (List.length values <? 3)%nat; [intros []|].
  cbv zeta. intros Hin. apply in_map_iff in Hin. destruct Hin as (i & <- & _).
  apply clamp_cases.
Qed.

Lemma predictTrend_range_witness :
  In (Fin 100) (predictTrend [Fin 10; Fin 20; Fin 30; Fin 70] 5)
  /\ (Fin 100 = NaN \/ is_percentage (Fin 100) = true).
Proof.
  assert (H : In (Fin 100) (predictTrend [Fin 10; Fin 20; Fin 30; Fin 70] 5)).
  { vm_compute. tauto. }
  split; [exact H|]. exact (predictTrend_range _ _ _ H).
Defined.

Lemma slope_of_NaN (n sumX sumXY sumXX : number) :
  slope_of n sumX NaN sumXY sumXX = NaN.
Proof.
  unfold slope_of. now rewrite rmul_NaN_r, rsub_NaN_r.
Qed.

Lemma map_constant {A B : Type} (b : B) (l : list A) :
  map (fun _ => b) l = repeat b (List.length l).
Proof. induction l as [|x l IH]; [reflexivity|]. cbn. now rewrite IH. Qed.

(** X8. When one of three or more values is NaN, every prediction is
    NaN, one for each period. *)
Theorem predictTrend_NaN (values : list number) (periods : Z) :
  (3 <= List.length values)%nat -> In NaN values ->
  predictTrend values periods = repeat NaN (Z.to_nat periods).
Proof.
  intros Hlen Hin. unfold predictTrend.
  destruct (List.length values <? 3)%nat eqn:E; [apply Nat.ltb_lt in E; lia|].
  cbv zeta. rewrite (fold_add_NaN values (Fin 0) Hin), slope_of_NaN.
  change (fun i : Z => clamp (radd (rmul NaN (rsub (radd (of_nat (List.length values))
                                                         (of_Z i)) (Fin 1)))
                                   (intercept_of (of_nat (List.length values))
                                      (fold_left (fun a b => radd a b)
                                         (map of_nat (seq 0 (List.length values))) (Fin 0))
                                      NaN NaN)))
    with (fun _ : Z => NaN).
  rewrite map_constant. unfold steps. now rewrite length_map, length_seq.
Qed.

Lemma predictTrend_NaN_witness :
  predictTrend [Fin 10; NaN; Fin 30] 2 = [NaN; NaN].
Proof.
  apply (predictTrend_NaN [Fin 10; NaN; Fin 30] 2).
  - simpl. lia.
  - simpl. tauto.
Defined.

End TrendEdges.

(** ** DynamicMonitor: queries, collections and restart *)

Section MonitorExtras.

Import DynamicMonitor MonitorQueries.

(** X10. [getHistory(count)] with a positive count returns the last
    [count] points of the history, oldest first, and the whole history
    when it has fewer; without a count, and with the count 0, it returns
    the whole history; with a negative count it drops the oldest
    [-count] points. *)
Theorem getHistory_count (count : Z) (s : State) :
  let h := history (fst s) in
  ((0 < count)%Z ->
     getHistoryCount (Some count) s = skipn (List.length h - Z.to_nat count) h
     /\ List.length (getHistoryCount (Some count) s)
        = Nat.min (Z.to_nat count) (List.length h))
  /\ getHistoryCount (Some 0%Z) s = h
  /\ getHistoryCount None s = h
  /\ ((count < 0)%Z -> getHistoryCount (Some count) s = skipn (Z.to_nat (- count)) h).
Proof.
  cbv zeta. repeat split.
  - unfold getHistoryCount, slice_from.
    destruct (count =? 0)%Z eqn:E; [apply Z.eqb_eq in E; lia|].
    destruct (- count <? 0)%Z eqn:E'; [|apply Z.ltb_ge in E'; lia].
    f_equal. lia.
  - unfold getHistoryCount, slice_from.
    destruct (count =? 0)%Z eqn:E; [apply Z.eqb_eq in E; lia|].
    destruct (- count <? 0)%Z eqn:E'; [|apply Z.ltb_ge in E'; lia].
    rewrite length_skipn. lia.
  - intros Hc. unfold getHistoryCount, slice_from.
    destruct (count =? 0)%Z eqn:E; [apply Z.eqb_eq in E; lia|].
    destruct (- count <? 0)%Z eqn:E'; [apply Z.ltb_lt in E'; lia|].
    destruct (Z.le_gt_cases (- count) (Z.of_nat (List.length (history (fst s)))))
      as [Hle|Hgt].
    + now rewrite Z.min_l by exact Hle.
    + rewrite Z.min_r by lia. rewrite Nat2Z.id.
      rewrite !skipn_all2; [reflexivity|lia|lia].
Qed.

Lemma getHistory_count_witness :
  let s := (mkFields defaultConfig
                     [Samples.cpu_point 1 10; Samples.cpu_point 2 20;
                      Samples.cpu_point 3 30] None false,
            mkRuntime [] 0 0 [] []) in
  getHistoryCount (Some 2%Z) s = [Samples.cpu_point 2 20; Samples.cpu_point 3 30]
  /\ getHistoryCount (Some (-2)%Z) s = [Samples.cpu_point 3 30].
Proof.
  cbv zeta. split.
  - refine (proj1 (proj1 (getHistory_count 2 _) _)). lia.
  - refine (proj2 (proj2 (proj2 (getHistory_count (-2) _))) _). lia.
Defined.

Lemma nth_error_last {A : Type} (l : list A) (x : A) :
  nth_error (l ++ [x]) (List.length (l ++ [x]) - 1) = Some x.
Proof.
  rewrite length_app. cbn [List.length].
  replace (List.length l + 1 - 1)%nat with (List.length l) by lia.
  rewrite nth_error_app2 by lia. now rewrite Nat.sub_diag.
Qed.

(** X11. After [addDataPoint], [getLatest] is the point just added,
    provided the history size is not below 1; with a history size
    below 1 the point added to an empty history is evicted at once and
    [getLatest] is [null]. *)
Theorem getLatest_after_add (p : MonitoringDataPoint) (this : Fields) (rt : Runtime) :
  (gtb (Fin 1) (historySize (config this)) = false ->
     getLatest (addDataPoint p this, rt) = Some p)
  /\ (gtb (Fin 1) (historySize (config this)) = true -> history this = [] ->
      getLatest (addDataPoint p this, rt) = None).
Proof.
  split.
  - intros Hsize. unfold getLatest, addDataPoint. cbn [fst history].
    destruct (gtb (of_nat (List.length (history this ++ [p])))
                  (historySize (config this))) eqn:E.
    + destruct (history this) as [|x h] eqn:Eh.
      * change (of_nat (List.length ([] ++ [p]))) with (Fin 1) in E. congruence.
      * cbn [app tl]. pose proof (nth_error_last h p) as L.
        rewrite length_app in *. cbn [List.length] in *.
        destruct (0 <? List.length h + 1)%nat eqn:E0; [exact L|].
        apply Nat.ltb_ge in E0. lia.
    + pose proof (nth_error_last (history this) p) as L.
      rewrite length_app in *. cbn [List.length] in *.
      destruct (0 <? List.length (history this) + 1)%nat eqn:E0; [exact L|].
      apply Nat.ltb_ge in E0. lia.
  - intros Hsize Hempty. unfold getLatest, addDataPoint. cbn [fst history].
    rewrite Hempty. cbn [app List.length].
    change (of_nat 1) with (Fin 1). now rewrite Hsize.
Qed.

Lemma getLatest_after_add_witness :
  let this := mkFields defaultConfig [Samples.cpu_point 1 10] None false in
  getLatest (addDataPoint (Samples.cpu_point 2 20) this, mkRuntime [] 0 0 [] [])
  = Some (Samples.cpu_point 2 20).
Proof.
  cbv zeta. refine (proj1 (getLatest_after_add _ _ _) _). reflexivity.
Defined.

Lemma carries_data_start (s : State) :
  existsb carries_data (emitted (snd (start s))) = existsb carries_data (emitted (snd s)).
Proof.
  destruct s as [this rt]. unfold start.
  destruct (isRunning this); [reflexivity|].
  cbn [snd setInterval call_collectData emit print emitted].
  rewrite existsb_app. cbn [existsb carries_data]. now rewrite !Bool.orb_false_r.
Qed.

Lemma carries_data_stop (s : State) :
  existsb carries_data (emitted (snd (stop s))) = existsb carries_data (emitted (snd s)).
Proof.
  destruct s as [this rt]. unfold stop.
  destruct (isRunning this); [|reflexivity]. cbn [negb snd print emit emitted].
  rewrite existsb_app. cbn [existsb carries_data]. rewrite !Bool.orb_false_r.
  now destruct (intervalId this).
Qed.

(** Every collection ends in the [catch] branch: with the error of the
    readings, or else with the one of [os.uptime()]. *)
Lemma collectData_fails (timestamp : number) (readings : completion DataPoints.Readings)
    (s : State) :
  collectData timestamp readings s
  = (fst s,
     emit (EvError match readings with
                   | Normal _ => DataPoints.os_is_not_defined
                   | Throw error => error
                   end)
          (print (ErrorCollect match readings with
                               | Normal _ => DataPoints.os_is_not_defined
                               | Throw error => error
                               end)
                 (mkRuntime (timers (snd s)) (nextTimer (snd s))
                            (Nat.pred (pending (snd s))) (emitted (snd s))
                            (console (snd s))))).
Proof. destruct s as [this rt]. now destruct readings. Qed.

(** No operation adds a point to an empty history or emits an event
    with a data point. *)
Lemma no_record_run_op (o : Op) (s : State) :
  history (fst s) = [] /\ existsb carries_data (emitted (snd s)) = false ->
  history (fst (run_op o s)) = []
  /\ existsb carries_data (emitted (snd (run_op o s))) = false.
Proof.
  intros [Hh He]. destruct o; cbn [run_op].
  - now rewrite history_start, carries_data_start.
  - now rewrite history_stop, carries_data_stop.
  - unfold updateConfig. cbv zeta. cbn [fst snd emit emitted].
    rewrite existsb_app. cbn [existsb carries_data]. rewrite !Bool.orb_false_r.
    destruct (isRunning (fst s)).
    + rewrite history_start, carries_data_start. cbn [fst snd history].
      now rewrite history_stop, carries_data_stop.
    + now cbn [fst snd history].
  - unfold clearHistory. cbn [fst snd resetHistory history emit emitted].
    rewrite existsb_app. cbn [existsb carries_data]. now rewrite He.
  - destruct s as [this rt]. unfold fire.
    now destruct (existsb _ (timers rt)).
  - destruct (0 <? pending (snd s))%nat; [|now split].
    rewrite collectData_fails. cbn [fst snd emit print emitted].
    rewrite existsb_app. cbn [existsb carries_data]. now rewrite He.
Qed.

(** X12. The module never imports [os]: in every collection whose
    readings arrive, the evaluation of [os.uptime()] throws before the
    data point is built.  So [collectData] never adds a point and never
    emits ['data']: it leaves the fields as they are, prints the error
    and emits ['error'] with it, the error being the one of the
    readings when they failed.  From a new monitor, whatever is called
    and whenever the timers fire, the history stays empty, and neither
    ['data'] nor ['alert'] is emitted. *)
Theorem collectData_never_records (s : State) :
  reachable s ->
  history (fst s) = []
  /\ existsb carries_data (emitted (snd s)) = false
  /\ forall timestamp readings,
       exists error,
         fst (collectData timestamp readings s) = fst s
         /\ emitted (snd (collectData timestamp readings s))
            = emitted (snd s) ++ [EvError error]
         /\ console (snd (collectData timestamp readings s))
            = console (snd s) ++ [ErrorCollect error]
         /\ (forall values, readings = Normal values ->
             error = DataPoints.os_is_not_defined)
         /\ (forall thrown, readings = Throw thrown -> error = thrown).
Proof.
  intros (cfg & ops & ->).
  assert (I : history (fst (run ops (constructor cfg))) = []
              /\ existsb carries_data (emitted (snd (run ops (constructor cfg)))) = false).
  { unfold run. induction ops as [|o ops IH] using rev_ind.
    - split; reflexivity.
    - rewrite fold_left_app. cbn [fold_left]. now apply no_record_run_op. }
  destruct I as [Hh He]. split; [exact Hh|]. split; [exact He|].
  intros timestamp readings. rewrite collectData_fails.
  eexists. split; [reflexivity|]. split; [reflexivity|]. split; [reflexivity|].
  split.
  - intros values ->. reflexivity.
  - intros thrown ->. reflexivity.
Qed.

Lemma collectData_never_records_witness :
  let readings :=
    DataPoints.mkReadings
      (SystemInfo.getCpuInfo [SystemInfo.mkTimes (Fin 30) (Fin 10) (Fin 60)])
      (SystemInfo.getMemInfo (Fin 17179869184) (Fin 4294967296)) [] in
  let s := run [OpStart; OpCollected (Fin 1) (Normal readings); OpFire 0%nat;
                OpCollected (Fin 5001) (Normal readings)]
               (constructor (mkPartial None None None None)) in
  reachable s
  /\ history (fst s) = []
  /\ emitted (snd s)
     = [EvStart; EvError DataPoints.os_is_not_defined;
        EvError DataPoints.os_is_not_defined].
Proof.
  cbv zeta.
  match goal with
  | |- reachable ?s /\ _ =>
      assert (Hr : reachable s)
        by (eexists (mkPartial None None None None), _; reflexivity);
      split; [exact Hr|]; split; [exact (proj1 (collectData_never_records s Hr))|]
  end.
  reflexivity.
Defined.



End MonitorExtras.

(** ** AlertManager: whole traces, the active alerts, clearing, and
    rules that share an id *)

Section AlertExtras.

Import AlertManager Samples.

Lemma feed_firing (r : AlertRule) (ticks : list Tick) (this : State) :
  NoDup (map rule_id (rules this)) ->
  In r (rules this) ->
  well_keyed (alerts this) ->
  quiet (rules this) ticks ->
  firing (rule_id r) (snd (feed ticks this))
  = last (map (holds_on r) ticks) (firing (rule_id r) this).
Proof.
  revert this. induction ticks as [|[now d] ticks IH]; intros this Hnd Hin Hk Hq.
  - reflexivity.
  - apply quiet_cons in Hq. destruct Hq as [Hd Hq]. cbn [snd] in Hd.
    assert (Hb : exists b, condition r d = Normal b).
    { rewrite Forall_forall in Hd. now destruct (Hd r Hin) as [Hb _]. }
    destruct Hb as [b Hb].
    destruct (forEach_edge now d r b (rules this)
                (mkState (alerts this) (rules this) []) Hnd Hin Hd Hb Hk)
      as (this' & E & R & K & F & _).
    cbn [feed]. unfold checkAlerts. cbn [rules]. rewrite E. cbn [rules] in R.
    specialize (IH this'). rewrite R, F in IH.
    destruct (feed ticks this') as [outs final] eqn:Efeed. cbn [snd] in *.
    rewrite IH by assumption.
    assert (Hh : holds_on r (now, d) = b) by (unfold holds_on; cbn [snd]; now rewrite Hb).
    cbn [map]. rewrite Hh. apply last_default.
Qed.


Lemma default_rules_quiet (ticks : list Tick) : quiet defaultAlertRules ticks.
Proof.
  intros tick rule _ Hr. simpl in Hr.
  repeat (destruct Hr as [<-|Hr]; [split; eexists; reflexivity|]).
  destruct Hr.
Qed.

Lemma default_rules_distinct : NoDup (map rule_id defaultAlertRules).
Proof. repeat constructor; simpl; intuition discriminate. Qed.


(** *** The keys of the map *)

Lemma map_set_keys (key : string) (a : Alert) (m : AlertMap) :
  map fst (map_set key a m)
  = if map_has key m then map fst m else map fst m ++ [key].
Proof.
  unfold map_has. induction m as [|[k b] m IH]; [reflexivity|].
  cbn [map_set map_get]. destruct (String.eqb k key) eqn:E; [reflexivity|].
  cbn [map fst]. rewrite IH. now destruct (map_get key m).
Qed.

Lemma map_get_keys (key : string) (m : AlertMap) :
  map_get key m = None -> ~ In key (map fst m).
Proof.
  induction m as [|[k b] m IH]; intros Hget Hin; [exact Hin|].
  cbn [map_get] in Hget. destruct (String.eqb k key) eqn:E; [discriminate|].
  destruct Hin as [Heq|Hin]; [|now apply IH].
  cbn [fst] in Heq. subst k. now rewrite String.eqb_refl in E.
Qed.

Lemma map_set_NoDup (key : string) (a : Alert) (m : AlertMap) :
  NoDup (map fst m) -> NoDup (map fst (map_set key a m)).
Proof.
  intros H. rewrite map_set_keys. unfold map_has.
  destruct (map_get key m) eqn:G; [exact H|].
  apply NoDup_app; [exact H|repeat constructor; intros []|].
  intros x Hx [<-|[]]. now apply (map_get_keys _ _ G).
Qed.

Lemma checkRule_keys (now : number) (d : MonitoringDataPoint) (rule : AlertRule)
    (this this' : State) (thrown : option string) :
  NoDup (map fst (alerts this)) ->
  checkRule now d rule this = (this', thrown) ->
  NoDup (map fst (alerts this')).
Proof.
  intros H. unfold checkRule.
  destruct (condition rule d) as [b|error]; [|intros E; now injection E as <- _].
  cbv zeta. destruct b.
  - destruct (negb (map_has (rule_id rule) (alerts this)) || _);
      [|intros E; now injection E as <- _].
    destruct (rule_message rule d); intros E; injection E as <- _; [|exact H].
    cbn [alerts]. now apply map_set_NoDup.
  - destruct (map_get (rule_id rule) (alerts this)) as [a|];
      [|intros E; now injection E as <- _].
    destruct (negb (resolved a)); intros E; injection E as <- _; [|exact H].
    cbn [alerts]. now apply map_set_NoDup.
Qed.

Lemma forEach_keys (now : number) (d : MonitoringDataPoint) (todo : list AlertRule)
    (this this' : State) (thrown : option string) :
  NoDup (map fst (alerts this)) ->
  forEach now d todo this = (this', thrown) ->
  NoDup (map fst (alerts this')).
Proof.
  revert this. induction todo as [|rule todo IH]; intros this H; cbn [forEach].
  - intros E. now injection E as <- _.
  - destruct (checkRule now d rule this) as [mid [error|]] eqn:E.
    + intros E'. injection E' as <- _. exact (checkRule_keys _ _ _ _ _ _ H E).
    + apply IH. exact (checkRule_keys _ _ _ _ _ _ H E).
Qed.

Lemma map_get_In (key : string) (a : Alert) (m : AlertMap) :
  map_get key m = Some a -> In (key, a) m.
Proof.
  induction m as [|[k b] m IH]; [discriminate|].
  cbn [map_get]. destruct (String.eqb k key) eqn:E.
  - apply String.eqb_eq in E. subst k. intros [= ->]. now left.
  - intros H. right. now apply IH.
Qed.

Lemma In_map_get (key : string) (a : Alert) (m : AlertMap) :
  NoDup (map fst m) -> In (key, a) m -> map_get key m = Some a.
Proof.
  induction m as [|[k b] m IH]; intros Hnd Hin; [destruct Hin|].
  inversion Hnd as [|? ? Hnot Hnd']; subst. cbn [map_get].
  destruct Hin as [[= -> ->]|Hin].
  - now rewrite String.eqb_refl.
  - destruct (String.eqb k key) eqn:E; [|now apply IH].
    apply String.eqb_eq in E. subst k. exfalso. apply Hnot.
    change key with (fst (key, a)). now apply in_map.
Qed.

(** An alert is firing exactly when [getActiveAlerts] lists a record
    with its id. *)
Lemma firing_active (key : string) (this : State) :
  well_keyed (alerts this) ->
  NoDup (map fst (alerts this)) ->
  firing key this = true
  <-> exists a, In a (getActiveAlerts this) /\ id a = key.
Proof.
  intros Hk Hnd. unfold firing, getActiveAlerts. split.
  - destruct (map_get key (alerts this)) as [a|] eqn:G; [|discriminate].
    intros Hr. exists a. split; [|now apply Hk].
    apply filter_In. split; [|exact Hr].
    change a with (snd (key, a)). apply in_map. now apply map_get_In.
  - intros (a & Hin & Hid). apply filter_In in Hin. destruct Hin as [Hin Hr].
    apply in_map_iff in Hin. destruct Hin as ([k a'] & Ea & Hin). cbn [snd] in Ea.
    subst a'. pose proof (In_map_get _ _ _ Hnd Hin) as G.
    assert (k = key) by (rewrite <- Hid; symmetry; now apply Hk). subst k.
    now rewrite G.
Qed.







End AlertExtras.

(** ** OptimizedHistoryManager *)

Section TwoHistories.

Import OptimizedHistoryManager.

Lemma add_all_snoc (points : list MonitoringDataPoint) (p : MonitoringDataPoint)
    (this : Fields) :
  add_all (points ++ [p]) this = addDataPoint p (add_all points this).
Proof. unfold add_all. now rewrite fold_left_app. Qed.

(** The long-term history a manager has after the points pushed: the
    compressed first point once more than 100 were pushed. *)
Lemma add_all_state (points : list MonitoringDataPoint) :
  add_all points constructor
  = mkManager (skipn (List.length points - 100) points)
              (match points with
               | first :: _ =>
                   if (100 <? List.length points)%nat
                   then [compressDataPoint first] else []
               | [] => []
               end)
              10.
Proof.
  induction points as [|p points IH] using rev_ind; [reflexivity|].
  rewrite add_all_snoc, IH. unfold addDataPoint.
  cbn [shortTermHistory longTermHistory compressionRatio].
  rewrite !length_app, length_skipn. cbn [List.length].
  destruct (100 <? List.length points - (List.length points - 100) + 1)%nat eqn:E.
  - apply Nat.ltb_lt in E. assert (Hlen : (100 <= List.length points)%nat) by lia.
    destruct points as [|first points]; [simpl in Hlen; lia|].
    cbn [app].
    assert (E1 : (100 <? List.length (first :: points) + 1)%nat = true)
      by (apply Nat.ltb_lt; lia).
    rewrite E1.
    destruct (skipn (List.length (first :: points) - 100) (first :: points) ++ [p])
      as [|oldData rest] eqn:Es.
    { apply (f_equal (@List.length _)) in Es.
      rewrite length_app in Es. simpl in Es. lia. }
    assert (Hrest : rest = skipn (List.length (first :: points) + 1 - 100)
                                 ((first :: points) ++ [p])).
    { replace (List.length (first :: points) + 1 - 100)%nat
        with (S (List.length (first :: points) - 100)) by lia.
      rewrite <- tl_skipn_snoc by lia. now rewrite Es. }
    destruct (100 <? List.length (first :: points))%nat eqn:E2.
    + unfold shouldCompress. cbn [compressionRatio longTermHistory List.length].
      cbn [Nat.eqb Nat.modulo]. cbv iota. cbn [List.length Nat.ltb Nat.leb].
      now rewrite Hrest.
    + apply Nat.ltb_ge in E2.
      assert (Hall : (List.length (first :: points) - 100 = 0)%nat) by lia.
      rewrite Hall in Es. cbn [skipn app] in Es. injection Es as <- _.
      unfold shouldCompress. cbn [compressionRatio longTermHistory List.length].
      cbn [Nat.eqb Nat.modulo]. cbv iota. cbn [app List.length Nat.ltb Nat.leb].
      now rewrite Hrest.
  - apply Nat.ltb_ge in E.
    assert (Hlen : (List.length points < 100)%nat) by lia.
    replace (List.length points - 100)%nat with 0%nat by lia.
    replace (List.length points + 1 - 100)%nat with 0%nat by lia.
    cbn [skipn].
    assert (E1 : (100 <? List.length points + 1)%nat = false)
      by (apply Nat.ltb_ge; lia).
    assert (E2 : (100 <? List.length points)%nat = false)
      by (apply Nat.ltb_ge; lia).
    destruct points as [|first points]; [reflexivity|].
    cbn [app]. rewrite E1, E2. reflexivity.
Qed.

(** X18. From a new manager, whatever points are added: the short-term
    history holds the last 100 of them, in the order they were added;
    the long-term history never holds more than one point: it is empty
    up to 100 points and afterwards holds the first point ever added,
    compressed, and none of the points evicted later. *)
Theorem long_term_keeps_one (points : list MonitoringDataPoint) :
  let this := add_all points constructor in
  shortTermHistory this = skipn (List.length points - 100) points
  /\ (List.length (shortTermHistory this) <= 100)%nat
  /\ (List.length (longTermHistory this) <= 1)%nat
  /\ ((List.length points <= 100)%nat -> getAllHistory this = points)
  /\ (forall first rest, points = first :: rest -> (100 < List.length points)%nat ->
      longTermHistory this = [compressDataPoint first]).
Proof.
  cbv zeta. rewrite add_all_state.
  cbn [shortTermHistory longTermHistory getAllHistory].
  split; [reflexivity|]. split; [rewrite length_skipn; lia|].
  split.
  { destruct points as [|first rest]; [simpl; lia|].
    destruct (100 <? List.length (first :: rest))%nat; simpl; lia. }
  split.
  - intros Hlen. replace (List.length points - 100)%nat with 0%nat by lia.
    destruct points as [|first rest]; [reflexivity|].
    assert (E : (100 <? List.length (first :: rest))%nat = false)
      by (apply Nat.ltb_ge; lia).
    now rewrite E.
  - intros first rest -> Hlen. apply Nat.ltb_lt in Hlen. now rewrite Hlen.
Qed.

Lemma long_term_keeps_one_witness :
  longTermHistory
    (add_all (Samples.cpu_point 0 77 :: repeat (Samples.cpu_point 1 50) 100) constructor)
  = [compressDataPoint (Samples.cpu_point 0 77)].
Proof.
  refine (proj2 (proj2 (proj2 (proj2 (long_term_keeps_one _)))) _ _ eq_refl _).
  cbn [List.length]. rewrite repeat_length. lia.
Defined.

End TwoHistories.

(** ** TrendAnalyzer.analyzeMonitoringTrend *)

Section Report.

Import TrendAnalyzer TrendReport.

Lemma calculateTrend_short_window (values : list number) :
  (List.length values < 2)%nat -> calculateTrend values = stable.
Proof.
  intros H. unfold calculateTrend. apply Nat.ltb_lt in H. now rewrite H.
Qed.

(** X19. When fewer than two points of the history are newer than the
    cutoff, [analyzeMonitoringTrend] reports the trend [stable] for the
    CPU, the memory and the disks; with no such point the three averages
    are 0. *)
Theorem report_cold_start (now minutes : number) (history : list MonitoringDataPoint) :
  let cutoff := sub now (mul (mul minutes (Fin 60)) (Fin 1000)) in
  let recent := filter (fun point => gtb (timestamp point) cutoff) history in
  let report := analyzeMonitoringTrend now history minutes in
  ((List.length recent < 2)%nat ->
     metric_trend (report_cpu report) = stable
     /\ metric_trend (report_memory report) = stable
     /\ metric_trend (report_disk report) = stable)
  /\ (recent = [] ->
      metric_average (report_cpu report) = Fin 0
      /\ metric_average (report_memory report) = Fin 0
      /\ metric_average (report_disk report) = Fin 0).
Proof.
  cbv zeta. unfold analyzeMonitoringTrend. cbv zeta.
  set (recent := filter _ history). split.
  - intros Hlen. destruct (List.length recent =? 0)%nat; [now repeat split|].
    cbn [report_cpu report_memory report_disk metric metric_trend].
    repeat split; apply calculateTrend_short_window; now rewrite length_map.
  - intros ->. now repeat split.
Qed.

Lemma report_cold_start_witness :
  metric_trend (report_cpu (analyzeMonitoringTrend (Fin 700000)
                              [Samples.cpu_point 1 90; Samples.cpu_point 650000 20]
                              (Fin 10)))
  = stable.
Proof.
  refine (proj1 (proj1 (report_cold_start (Fin 700000)
                          (Fin 10) [Samples.cpu_point 1 90; Samples.cpu_point 650000 20]) _)).
  vm_compute. lia.
Defined.

End Report.

(** ** The strings of the readings and the numbers parsed from them *)

Section Strings.

Import JsString Rounding.

Lemma take_while_app (f : ascii -> bool) (a b : string) :
  all_chars f a = true ->
  match b with String c _ => f c = false | EmptyString => True end ->
  take_while f (a ++ b)%string = (a, b).
Proof.
  intros Ha Hb. induction a as [|c a IH].
  - destruct b as [|c b]; [reflexivity|]. cbn [append take_while]. now rewrite Hb.
  - cbn [all_chars] in Ha. apply andb_prop in Ha. destruct Ha as [Hc Ha].
    cbn [append take_while]. rewrite Hc, (IH Ha). reflexivity.
Qed.

Lemma take_while_all (f : ascii -> bool) (a : string) :
  all_chars f a = true -> take_while f a = (a, EmptyString).
Proof.
  intros Ha. pose proof (take_while_app f a EmptyString Ha I) as H.
  assert (E : (a ++ "")%string = a) by (clear; induction a; simpl; congruence).
  now rewrite E in H.
Qed.

Lemma split_at_app (a b : string) :
  split_at (String.length a) (a ++ b)%string = (a, b).
Proof.
  induction a as [|c a IH]; [now destruct b|].
  cbn [String.length append split_at]. now rewrite IH.
Qed.

Lemma all_chars_app (f : ascii -> bool) (a b : string) :
  all_chars f (a ++ b)%string = all_chars f a && all_chars f b.
Proof.
  induction a as [|c a IH]; [reflexivity|].
  cbn [append all_chars]. now rewrite IH, andb_assoc.
Qed.

Lemma all_chars_weaken (f g : ascii -> bool) (a : string) :
  (forall c, f c = true -> g c = true) ->
  all_chars f a = true -> all_chars g a = true.
Proof.
  intros Hfg. induction a as [|c a IH]; [reflexivity|].
  cbn [all_chars]. intros H. apply andb_prop in H. destruct H as [Hc Ha].
  now rewrite (Hfg c Hc), (IH Ha).
Qed.

Lemma remove_first_app (c : ascii) (a : string) :
  all_chars (fun c' => negb (Ascii.eqb c' c)) a = true ->
  remove_first c (a ++ String c "")%string = a.
Proof.
  induction a as [|c' a IH]; intros H.
  - cbn. now rewrite Ascii.eqb_refl.
  - cbn [all_chars] in H. apply andb_prop in H. destruct H as [Hc Ha].
    cbn [append remove_first]. apply negb_true_iff in Hc. rewrite Hc.
    now rewrite (IH Ha).
Qed.

(** The ten digits. *)
Lemma is_digit_cases (c : ascii) :
  is_digit c = true ->
  In c ["0"; "1"; "2"; "3"; "4"; "5"; "6"; "7"; "8"; "9"]%char.
Proof.
  destruct c as [[] [] [] [] [] [] [] []]; intros H; try discriminate H;
    cbn; tauto.
Qed.

Ltac each_digit H :=
  apply is_digit_cases in H; cbn [In] in H;
  repeat (destruct H as [<-|H]; [reflexivity|]); destruct H.

Lemma digit_not_space (c : ascii) : is_digit c = true -> is_space c = false.
Proof. intros H. each_digit H. Qed.

Lemma digit_is_word (c : ascii) : is_digit c = true -> is_word c = true.
Proof. intros H. unfold is_word. now rewrite H. Qed.

Lemma digit_no_sign (c : ascii) (rest : string) :
  is_digit c = true -> read_sign (String c rest) = (false, String c rest).
Proof. intros H. each_digit H. Qed.

Lemma digit_not_Infinity (c : ascii) (rest : string) :
  is_digit c = true -> String.prefix "Infinity" (String c rest) = false.
Proof. intros H. each_digit H. Qed.

Lemma digit_not_percent (c : ascii) :
  is_digit c = true -> negb (Ascii.eqb c "%") = true.
Proof. intros H. each_digit H. Qed.

(** *** Decimal numerals *)

Lemma string_of_uint_digits (d : Decimal.uint) :
  all_chars is_digit (NilEmpty.string_of_uint d) = true.
Proof. induction d; cbn [NilEmpty.string_of_uint all_chars]; try exact IHd; reflexivity. Qed.

Lemma to_uint_nonnil (n : N) : N.to_uint n <> Decimal.Nil.
Proof.
  destruct n as [|p]; [discriminate|]. apply DecimalPos.Unsigned.to_uint_nonnil.
Qed.

Lemma decimal_NilEmpty (z : Z) :
  decimal z = NilEmpty.string_of_uint (N.to_uint (Z.to_N z)).
Proof.
  unfold decimal, NilZero.string_of_uint.
  pose proof (to_uint_nonnil (Z.to_N z)) as H.
  now destruct (N.to_uint (Z.to_N z)).
Qed.

(** The numeral of a natural number: digits only, one at least, and
    read back it is the number. *)
Lemma decimal_spec (z : Z) :
  (0 <= z)%Z ->
  all_chars is_digit (decimal z) = true
  /\ (exists c rest, decimal z = String c rest)
  /\ digits_value (decimal z) = z.
Proof.
  intros Hz. rewrite decimal_NilEmpty. split; [apply string_of_uint_digits|]. split.
  - pose proof (to_uint_nonnil (Z.to_N z)) as H.
    destruct (N.to_uint (Z.to_N z)); [congruence| | | | | | | | | |];
      cbn [NilEmpty.string_of_uint]; eexists; eexists; reflexivity.
  - unfold digits_value. rewrite NilEmpty.usu, DecimalN.Unsigned.of_to.
    now apply Z2N.id.
Qed.

Lemma two_digits_spec (f : Z) :
  (0 <= f < 100)%Z ->
  String.length (two_digits f) = 2%nat
  /\ all_chars is_digit (two_digits f) = true
  /\ digits_value (two_digits f) = f.
Proof.
  intros Hf.
  assert (Hall : forallb two_digits_ok (seq 0 100) = true) by (vm_compute; reflexivity).
  rewrite forallb_forall in Hall.
  specialize (Hall (Z.to_nat f)).
  assert (Hin : In (Z.to_nat f) (seq 0 100)) by (apply in_seq; lia).
  apply Hall in Hin. unfold two_digits_ok in Hin. rewrite Z2Nat.id in Hin by lia.
  apply andb_prop in Hin. destruct Hin as [Hin H3].
  apply andb_prop in Hin. destruct Hin as [H1 H2].
  apply Nat.eqb_eq in H1. apply Z.eqb_eq in H3. now repeat split.
Qed.

End Strings.

Section ReadBack.

Import JsString Rounding SystemInfo DataPoints.

(** The text of [toFixed(2)] for a finite number. *)
Lemma toFixed2_Fin (q : Q) :
  toFixed2 (Fin q)
  = ((if match (q ?= 0)%Q with Lt => true | _ => false end then "-" else "")
       ++ decimal (hundredths q / 100)
       ++ "." ++ two_digits (hundredths q mod 100))%string.
Proof. reflexivity. Qed.

(** [parseFloat] on a numeral with an integer part and a fraction,
    after a minus sign or not. *)
Lemma parseFloat_numeral (negative : bool) (int_part frac_part : string) :
  all_chars is_digit int_part = true ->
  (exists c rest, int_part = String c rest) ->
  all_chars is_digit frac_part = true ->
  let value :=
    (inject_Z (digits_value int_part)
     + inject_Z (digits_value frac_part)
       / inject_Z (10 ^ Z.of_nat (String.length frac_part)))
    * Qpower 10 0 in
  parseFloat ((if negative then "-" else "") ++ int_part ++ "." ++ frac_part)%string
  = Fin (if negative then - value else value).
Proof.
  intros Hi (c & rest & Ec) Hf value.
  assert (Hc : is_digit c = true).
  { subst int_part. cbn [all_chars] in Hi. now apply andb_prop in Hi. }
  set (body := (int_part ++ "." ++ frac_part)%string).
  assert (Hbody : body = String c (rest ++ "." ++ frac_part)%string)
    by (unfold body; now subst int_part).
  assert (Hspace : take_while is_space ((if negative then "-" else "") ++ body)%string
                   = (EmptyString, ((if negative then "-" else "") ++ body)%string)).
  { destruct negative; [reflexivity|]. rewrite Hbody. cbn [append take_while].
    now rewrite (digit_not_space c Hc). }
  assert (Hsign : read_sign ((if negative then "-" else "") ++ body)%string
                  = (negative, body)).
  { destruct negative; [reflexivity|]. rewrite Hbody. cbn [append].
    apply (digit_no_sign c _ Hc). }
  assert (Hinf : String.prefix "Infinity" body = false).
  { rewrite Hbody. apply (digit_not_Infinity c _ Hc). }
  assert (Htake : take_while is_digit body = (int_part, ("." ++ frac_part)%string)).
  { unfold body. apply take_while_app; [exact Hi|reflexivity]. }
  assert (Hne : String.eqb int_part "" = false) by now subst int_part.
  unfold parseFloat. cbv zeta. fold body.
  rewrite Hspace. cbn [snd]. rewrite Hsign. cbn [fst snd]. rewrite Hinf, Htake.
  cbn [fst snd append]. rewrite (take_while_all is_digit frac_part Hf). cbn [fst snd].
  rewrite Hne. cbn [andb read_exponent]. reflexivity.
Qed.

Lemma hundredths_split (n : Z) :
  inject_Z (n / 100) + inject_Z (n mod 100) / inject_Z (10 ^ Z.of_nat 2)
  == inject_Z n / 100.
Proof.
  rewrite (Z.div_mod n 100) at 3 by lia.
  rewrite inject_Z_plus, inject_Z_mult.
  change (inject_Z (10 ^ Z.of_nat 2)) with 100. change (inject_Z 100) with 100.
  field.
Qed.

Lemma hundredths_close (q : Q) : Qabs (inject_Z (hundredths q) / 100 - Qabs q) <= 1 # 200.
Proof.
  unfold hundredths.
  pose proof (Qfloor_le (Qabs q * 100 + (1 # 2))) as L.
  pose proof (Qlt_floor (Qabs q * 100 + (1 # 2))) as U.
  rewrite inject_Z_plus in U. change (inject_Z 1) with 1 in U.
  set (n := inject_Z (Qfloor (Qabs q * 100 + (1 # 2)))) in *.
  apply Qabs_Qle_condition. split.
  - apply Qle_minus_iff.
    assert (E : n / 100 - Qabs q + - - (1 # 200) == (n + 1 - (Qabs q * 100 + (1 # 2))) / 100)
      by field.
    rewrite E. apply Qle_shift_div_l; lra.
  - apply Qle_minus_iff.
    assert (E : (1 # 200) + - (n / 100 - Qabs q) == (Qabs q * 100 + (1 # 2) - n) / 100)
      by field.
    rewrite E. apply Qle_shift_div_l; lra.
Qed.

Lemma round2_close (q : Q) : Qabs (round2 q - q) <= 1 # 200.
Proof.
  pose proof (hundredths_close q) as H. unfold round2.
  set (h := inject_Z (hundredths q) / 100) in *.
  destruct (q ?= 0) eqn:E.
  - apply Qeq_alt in E.
    assert (A : Qabs q == q) by (apply Qabs_pos; lra).
    now rewrite A in H.
  - apply Qlt_alt in E.
    assert (A : Qabs q == - q) by (apply Qabs_neg; lra).
    rewrite A in H.
    assert (E' : - h - q == - (h - - q)) by ring.
    now rewrite E', Qabs_opp.
  - apply Qgt_alt in E.
    assert (A : Qabs q == q) by (apply Qabs_pos; lra).
    now rewrite A in H.
Qed.

(** What [parseFloat] reads in the text [toFixed(2)] printed. *)
Lemma parseFloat_toFixed2 (q : Q) :
  exists v, parseFloat (toFixed2 (Fin q)) = Fin v /\ v == round2 q.
Proof.
  rewrite toFixed2_Fin.
  pose proof (hundredths_nonneg q) as Hn.
  destruct (decimal_spec (hundredths q / 100)) as (Hi & Hne & Vi);
    [apply Z.div_pos; lia|].
  destruct (two_digits_spec (hundredths q mod 100)) as (Lf & Hf & Vf);
    [apply Z.mod_pos_bound; lia|].
  rewrite (parseFloat_numeral _ _ _ Hi Hne Hf). cbv zeta.
  rewrite Vi, Vf, Lf. eexists. split; [reflexivity|].
  unfold round2.
  destruct (q ?= 0); rewrite hundredths_split; change (Qpower 10 0) with 1; ring.
Qed.

Lemma toFixed2_no_percent (x : number) :
  all_chars (fun c => negb (Ascii.eqb c "%")) (toFixed2 x) = true.
Proof.
  destruct x as [q| | |]; try reflexivity.
  rewrite toFixed2_Fin.
  pose proof (hundredths_nonneg q) as Hn.
  destruct (decimal_spec (hundredths q / 100)) as (Hi & _ & _);
    [apply Z.div_pos; lia|].
  destruct (two_digits_spec (hundredths q mod 100)) as (_ & Hf & _);
    [apply Z.mod_pos_bound; lia|].
  rewrite !all_chars_app.
  rewrite (all_chars_weaken _ _ _ digit_not_percent Hi).
  rewrite (all_chars_weaken _ _ _ digit_not_percent Hf).
  now destruct (q ?= 0).
Qed.

Lemma percent_read_back (q : Q) :
  exists v,
    parseFloat (remove_first "%" (toFixed2 (Fin q) ++ "%")%string) = Fin v
    /\ v == round2 q.
Proof.
  rewrite (remove_first_app "%" _ (toFixed2_no_percent (Fin q))).
  apply parseFloat_toFixed2.
Qed.

(** X20. The usage number that [collectData] reads back from a usage
    text, [parseFloat(text.replace('%', ''))], is the number that was
    printed with two decimals: for a finite usage below 1e21 its
    rounding to two decimals, at most 0.005 away from it; ["NaN%"] reads
    back as NaN and the infinities as themselves. *)
Theorem usage_read_back (x : number) :
  match x with
  | Fin q =>
      Qabs q < 1000000000000000000000 ->
      exists v,
        parseFloat (remove_first "%" (toFixed2 x ++ "%")%string) = Fin v
        /\ v == round2 q /\ Qabs (v - q) <= 1 # 200
  | _ => parseFloat (remove_first "%" (toFixed2 x ++ "%")%string) = x
  end.
Proof.
  destruct x as [q| | |]; try reflexivity.
  intros _. destruct (percent_read_back q) as (v & E & Hv).
  exists v. split; [exact E|]. split; [exact Hv|].
  rewrite Hv. apply round2_close.
Qed.

Lemma usage_read_back_witness :
  exists v,
    parseFloat (remove_first "%" (toFixed2 (Fin (200 # 3)) ++ "%")%string) = Fin v
    /\ v == round2 (200 # 3) /\ Qabs (v - (200 # 3)) <= 1 # 200.
Proof.
  apply (usage_read_back (Fin (200 # 3))). reflexivity.
Defined.

Lemma bytesToGB_Fin (q : Q) :
  bytesToGB (Fin q) = toFixed2 (Fin (q / (1024 * 1024 * 1024))).
Proof.
  unfold bytesToGB. cbn [mul]. rewrite div_Fin; [reflexivity|].
  intros H. discriminate H.
Qed.

(** [parseSize] on a numeral followed by a space and [GB]. *)
Lemma parseSize_GB (int_part frac_part : string) :
  all_chars is_digit int_part = true ->
  (exists c rest, int_part = String c rest) ->
  all_chars is_digit frac_part = true ->
  parseSize ((int_part ++ "." ++ frac_part) ++ " GB")%string
  = mul (parseFloat (int_part ++ "." ++ frac_part)%string)
        (Fin (1024 * 1024 * 1024)).
Proof.
  intros Hi Hne Hf. unfold parseSize. cbv zeta.
  set (numeral := (int_part ++ "." ++ frac_part)%string).
  assert (Hall : all_chars (fun c => is_digit c || Ascii.eqb c ".") numeral = true).
  { unfold numeral. rewrite !all_chars_app.
    assert (W : forall c, is_digit c = true -> is_digit c || Ascii.eqb c "." = true)
      by (intros c ->; reflexivity).
    rewrite (all_chars_weaken _ _ _ W Hi), (all_chars_weaken _ _ _ W Hf). reflexivity. }
  rewrite (take_while_app _ numeral " GB" Hall eq_refl). cbn [fst].
  destruct (String.length numeral) as [|k] eqn:Ek.
  { destruct Hne as (c & rest & ->). discriminate Ek. }
  cbn [match_size]. rewrite <- Ek, split_at_app. cbn [fst snd].
  reflexivity.
Qed.

(** X21. The size texts of [getMemInfo] read back: for a number of
    bytes that is not negative (and below 1e21 GB), [parseSize] of the
    text [bytesToGB(bytes) + ' GB'] is the number of bytes rounded to a
    hundredth of a GB (of 1024 * 1024 * 1024 bytes), so at most 0.005
    GB away from it. *)
Theorem parseSize_bytesToGB (bytes : Q) :
  0 <= bytes -> bytes / (1024 * 1024 * 1024) < 1000000000000000000000 ->
  exists v,
    parseSize (bytesToGB (Fin bytes) ++ " GB")%string = Fin v
    /\ v == round2 (bytes / (1024 * 1024 * 1024)) * (1024 * 1024 * 1024)
    /\ Qabs (v - bytes) <= (1024 * 1024 * 1024) / 200.
Proof.
  intros Hb _. rewrite bytesToGB_Fin.
  set (gb := bytes / (1024 * 1024 * 1024)).
  assert (Hgb : 0 <= gb) by (apply Qle_shift_div_l; lra).
  assert (Hsign : match gb ?= 0 with Lt => true | _ => false end = false).
  { destruct (gb ?= 0) eqn:E; try reflexivity. apply Qlt_alt in E. lra. }
  pose proof (hundredths_nonneg gb) as Hn.
  destruct (decimal_spec (hundredths gb / 100)) as (Hi & Hne & _);
    [apply Z.div_pos; lia|].
  destruct (two_digits_spec (hundredths gb mod 100)) as (_ & Hf & _);
    [apply Z.mod_pos_bound; lia|].
  destruct (parseFloat_toFixed2 gb) as (v & E & Hv).
  rewrite toFixed2_Fin, Hsign in E |- *.
  pose proof (parseSize_GB _ _ Hi Hne Hf) as P.
  cbn [append] in E, P |- *. rewrite P, E. cbn [mul].
  eexists. split; [reflexivity|]. split; [now rewrite Hv|].
  pose proof (round2_close gb) as Hc. rewrite <- Hv in Hc.
  assert (Eb : v * (1024 * 1024 * 1024) - bytes == (v - gb) * (1024 * 1024 * 1024))
    by (unfold gb; field).
  rewrite Eb, Qabs_Qmult.
  assert (Ea : Qabs (1024 * 1024 * 1024) == 1024 * 1024 * 1024) by reflexivity.
  rewrite Ea.
  assert (Et : 1024 * 1024 * 1024 / 200 == (1 # 200) * (1024 * 1024 * 1024)) by reflexivity.
  rewrite Et. apply Qmult_le_compat_r; [exact Hc|lra].
Qed.

Lemma parseSize_bytesToGB_witness :
  exists v,
    parseSize (bytesToGB (Fin 17179869184) ++ " GB")%string = Fin v
    /\ v == round2 (17179869184 / (1024 * 1024 * 1024)) * (1024 * 1024 * 1024)
    /\ Qabs (v - 17179869184) <= (1024 * 1024 * 1024) / 200.
Proof.
  apply (parseSize_bytesToGB 17179869184); [lra|reflexivity].
Defined.

Lemma space_not_size_char (c : ascii) :
  is_space c = true -> is_digit c || Ascii.eqb c "." = false.
Proof.
  destruct c as [[] [] [] [] [] [] [] []]; intros H; try discriminate H; reflexivity.
Qed.

Lemma word_not_dot_or_space (c : ascii) :
  is_word c = true -> Ascii.eqb c "." = false /\ is_space c = false.
Proof.
  destruct c as [[] [] [] [] [] [] [] []]; intros H; try discriminate H; now split.
Qed.

(** X23. How [parseSize] reads a text made of a numeral (digits and
    dots), white space and a unit word, the unit not beginning with a
    digit when no white space separates them: the result is
    [parseFloat] of the numeral times the multiplier of the unit put in
    upper case, which is 1 for a word other than B, KB, MB, GB and TB.
    A text that does not begin with a digit or a dot gives 0. *)
Theorem parseSize_parts (value spaces unit : string) :
  (all_chars (fun c => is_digit c || Ascii.eqb c ".") value = true ->
   value <> EmptyString ->
   all_chars is_space spaces = true ->
   all_chars is_word unit = true ->
   unit <> EmptyString ->
   match (spaces ++ unit)%string with
   | String c _ => is_digit c = false
   | EmptyString => True
   end ->
   parseSize (value ++ spaces ++ unit)%string
   = mul (parseFloat value) (Fin (multiplier (toUpperCase unit))))
  /\ (match value with
      | String c _ => is_digit c || Ascii.eqb c "." = false
      | EmptyString => True
      end ->
      parseSize value = Fin 0).
Proof.
  split.
  - intros Hv Hne Hs Hu Hune Hfirst.
    destruct unit as [|u unit]; [congruence|].
    assert (Hw : is_word u = true)
      by (cbn [all_chars] in Hu; now apply andb_prop in Hu).
    destruct (word_not_dot_or_space u Hw) as [Hdot Hsp].
    assert (Hcut : match (spaces ++ String u unit)%string with
                   | String c _ => is_digit c || Ascii.eqb c "." = false
                   | EmptyString => True
                   end).
    { destruct spaces as [|c spaces].
      - cbn [append] in Hfirst |- *. now rewrite Hfirst, Hdot.
      - cbn [append]. apply space_not_size_char.
        cbn [all_chars] in Hs. now apply andb_prop in Hs. }
    unfold parseSize. cbv zeta.
    rewrite (take_while_app _ value _ Hv Hcut). cbn [fst].
    destruct (String.length value) as [|k] eqn:Ek.
    { destruct value; [congruence|discriminate Ek]. }
    cbn [match_size]. rewrite <- Ek, split_at_app. cbn [fst snd].
    unfold match_unit. cbv zeta.
    rewrite (take_while_app is_space spaces (String u unit) Hs Hsp). cbn [snd].
    rewrite Hu. reflexivity.
  - destruct value as [|c rest]; [reflexivity|].
    intros H. unfold parseSize. cbn [take_while]. now rewrite H.
Qed.

Lemma parseSize_parts_witness :
  parseSize ("1.5" ++ "  " ++ "mb")%string
  = mul (parseFloat "1.5") (Fin (multiplier (toUpperCase "mb")))
  /\ parseSize "-1.00 GB" = Fin 0.
Proof.
  split.
  - apply (proj1 (parseSize_parts "1.5" "  " "mb")); try reflexivity; discriminate.
  - apply (proj2 (parseSize_parts "-1.00 GB" "" "")). reflexivity.
Defined.

End ReadBack.
